(** * A shallow embedding of the assistants gateway (src/index.js)

    The development covers the pieces of [src/index.js] that have
    control flow of their own:

    - the [/stream-run/:thread_id/:run_id] handler and its inner
      [pollRunStatus] loop, together with the module-level [openai]
      binding, [createOpenAIInstance] (src/openaiInstance.js), the key
      store of apiKeyManager.js and the [/set-api-key] handler;
    - [handleToolCalls] and the [/execute-tools] handler;
    - the [/upload-file] route, with its file filter and [errorHandler];
    - the settings routes and the limiter and upload limit they mean to
      change;
    - the table of routes and middlewares in the order of registration,
      with the way Express matches a path and decodes its parameters.

    JavaScript's run-to-completion scheduling is made explicit: a handler
    only gives way to other work at an [await], so the embedding names the
    await points of the loop and lets the environment run other handlers
    (a credential update) or drop the connection exactly there. *)

From Stdlib Require Import ZArith Ascii.
From stdpp Require Import base strings list gmap pretty.


(** ** JavaScript completions *)

(** The thrown values that occur in the modelled code. *)
Inductive js_error : Type :=
| UpstreamError (msg : string)   (* a rejected axios promise *)
| TypeError (msg : string)
| ReferenceError (msg : string)
| SyntaxError (msg : string)
| Error (msg : string).

(** [error.message] *)
Definition message_of (e : js_error) : string :=
  match e with
  | UpstreamError m | TypeError m | ReferenceError m
  | SyntaxError m | Error m => m
  end.

(** A settled promise. *)
Inductive settled (A : Type) : Type :=
| Resolved (a : A)
| Rejected (e : js_error).
Arguments Resolved {A} a.
Arguments Rejected {A} e.

(** A value interpolated in a template literal; [None] is [undefined]. *)
Definition template (v : option string) : string :=
  match v with
  | Some s => s
  | None => "undefined"
  end.

(** ** JSON.stringify on strings *)

Definition nl : string := String (ascii_of_nat 10) EmptyString.
Definition dquote : string := String (ascii_of_nat 34) EmptyString.
Definition backslash : string := String (ascii_of_nat 92) EmptyString.

Definition hex_digit (n : nat) : ascii :=
  ascii_of_nat (if Nat.ltb n 10 then 48 + n else 87 + n).

(** One code unit of a JSON string literal, as [JSON.stringify] quotes it. *)
Definition json_escape_char (c : ascii) : string :=
  let n := nat_of_ascii c in
  if Nat.eqb n 34 then backslash +:+ dquote
  else if Nat.eqb n 92 then backslash +:+ backslash
  else if Nat.eqb n 8 then "\b"
  else if Nat.eqb n 12 then "\f"
  else if Nat.eqb n 10 then "\n"
  else if Nat.eqb n 13 then "\r"
  else if Nat.eqb n 9 then "\t"
  else if Nat.ltb n 32 then
    "\u00" +:+ String (hex_digit (n / 16))
                 (String (hex_digit (n mod 16)) EmptyString)
  else String c EmptyString.

Fixpoint json_escape (s : string) : string :=
  match s with
  | EmptyString => EmptyString
  | String c s' => json_escape_char c +:+ json_escape s'
  end.

Definition json_string (s : string) : string :=
  dquote +:+ json_escape s +:+ dquote.

(** ** The upstream client and the process-wide state *)

(** The axios instance built by [createOpenAIInstance]: a base URL and
    three default headers. *)
Record Client : Type := {
  baseURL : string;
  content_type : string;
  authorization : string;
  openai_beta : string
}.

Definition OPENAI_API_BASE : string := "https://api.openai.com/v1".

(** apiKeyManager.js: the key it holds, [None] when the environment
    variable is unset. *)
Record KeyManager : Type := { OPENAI_API_KEY : option string }.

Definition getApiKey (m : KeyManager) : option string := OPENAI_API_KEY m.

Definition setApiKey (apiKey : string) (m : KeyManager) : KeyManager :=
  {| OPENAI_API_KEY := Some apiKey |}.

(** openaiInstance.js *)
Definition createOpenAIInstance (m : KeyManager) : Client :=
  let apiKey := getApiKey m in
  {| baseURL := OPENAI_API_BASE;
     content_type := "application/json";
     authorization := "Bearer " +:+ template apiKey;
     openai_beta := "assistants=v2" |}.

(** The state that outlives a request: the key manager and the
    [let openai] of index.js. *)
Record Globals : Type := {
  keys : KeyManager;
  openai : Client
}.

(** Module initialisation: [let openai = createOpenAIInstance();]. *)
Definition init_globals (env_key : option string) : Globals :=
  let m := {| OPENAI_API_KEY := env_key |} in
  {| keys := m; openai := createOpenAIInstance m |}.

(** JavaScript truthiness of a request-body field holding a string. *)
Definition truthy (v : option string) : bool :=
  match v with
  | None => false
  | Some s => negb (String.eqb s EmptyString)
  end.

(** The [/set-api-key] handler: a falsy key is answered with 400 and
    changes nothing; otherwise the key is stored and the shared client is
    rebuilt from it. The boolean tells whether the key was accepted. *)
Definition set_api_key (body_apiKey : option string) (g : Globals)
  : bool * Globals :=
  match body_apiKey with
  | Some apiKey =>
      if truthy body_apiKey then
        let m := setApiKey apiKey (keys g) in
        (true, {| keys := m; openai := createOpenAIInstance m |})
      else (false, g)
  | None => (false, g)
  end.

(** ** Events, frames and the response sink *)

Inductive event_type : Type := status_t | message_t | error_t.

Definition event_type_name (t : event_type) : string :=
  match t with
  | status_t => "status"
  | message_t => "message"
  | error_t => "error"
  end.

(** [{ type, content }] *)
Record event : Type := { type : event_type; content : string }.

(** What one [res.write] call carries: a framed event, a framed event
    whose [content] was [undefined] (which [JSON.stringify] leaves out),
    or the sentinel. *)
Inductive chunk : Type :=
| Data (e : event)
| DataNoContent (t : event_type)
| Done.

Definition json_of_event (e : event) : string :=
  "{" +:+ json_string "type" +:+ ":" +:+ json_string (event_type_name (type e))
  +:+ "," +:+ json_string "content" +:+ ":" +:+ json_string (content e) +:+ "}".

(** The text handed to [res.write]. *)
Definition render (c : chunk) : string :=
  match c with
  | Data e => "data: " +:+ json_of_event e +:+ nl +:+ nl
  | DataNoContent t =>
      "data: {" +:+ json_string "type" +:+ ":" +:+ json_string (event_type_name t)
      +:+ "}" +:+ nl +:+ nl
  | Done => "data: [DONE]" +:+ nl +:+ nl
  end.

(** Everything the handler does that is visible outside it, in order. A
    [ResWrite] records whether the response still accepted the chunk:
    on a destroyed response [res.write] queues nothing and returns
    [false]; it does not throw. *)
Inductive effect : Type :=
| WriteHead (code : Z) (headers : list (string * string))
| Get (c : Client) (url : string)
| ResWrite (c : chunk) (accepted : bool)
| Sleep (ms : Z)
| ResEnd.

Record World : Type := {
  globals : Globals;
  destroyed : bool;      (* the client went away *)
  ended : bool;          (* res.end() was called *)
  trace : list effect
}.

Definition log (e : effect) (w : World) : World :=
  {| globals := globals w; destroyed := destroyed w; ended := ended w;
     trace := trace w ++ [e] |}.

(** [res.write(chunk)]: returns whether the chunk was accepted, and the
    world afterwards. *)
Definition res_write (c : chunk) (w : World) : bool * World :=
  let ok := negb (destroyed w) in
  (ok, log (ResWrite c ok) w).

Definition res_end (w : World) : World :=
  {| globals := globals w; destroyed := destroyed w; ended := true;
     trace := trace w ++ [ResEnd] |}.

(** ** The environment of one streaming request *)

Record Run : Type := { status : string }.

(** A content block of an upstream message: a text block carries
    [text.value]; a block may also have a [text] without a [value]; any
    other block (an image file, say) has no [text]. *)
Inductive ContentBlock : Type :=
| TextBlock (value : string)
| TextBlockNoValue
| ImageFileBlock (file_id : string).

Record Message : Type := { msg_content : list ContentBlock }.

(** The places where the loop awaits, by poll number. *)
Inductive await_point : Type :=
| AwaitRun (i : nat)
| AwaitMessages (i : nat)
| AwaitSleep (i : nat).

(** What can happen while the loop is suspended. *)
Inductive ext_event : Type :=
| SetApiKeyRequest (body_apiKey : option string)
| ClientDisconnect.

Record Env : Type := {
  run_fetch : nat -> settled Run;              (* answer to the i-th poll *)
  messages_fetch : settled (list Message);     (* answer to the list call *)
  events : await_point -> list ext_event
}.

Definition apply_event (ev : ext_event) (w : World) : World :=
  match ev with
  | SetApiKeyRequest body =>
      {| globals := snd (set_api_key body (globals w));
         destroyed := destroyed w; ended := ended w; trace := trace w |}
  | ClientDisconnect =>
      {| globals := globals w; destroyed := true; ended := ended w;
         trace := trace w |}
  end.

Definition await (evs : list ext_event) (w : World) : World :=
  foldl (fun w ev => apply_event ev w) w evs.

(** ** The [/stream-run/:thread_id/:run_id] handler *)

(** How a (possibly unfinished) async function stands: it returned, it
    threw, or it is still running when the step budget ran out. *)
Inductive outcome : Type :=
| Returned (w : World)
| Threw (e : js_error) (w : World)
| Pending (w : World).

Definition world_of (o : outcome) : World :=
  match o with
  | Returned w | Threw _ w | Pending w => w
  end.

Definition status_event (s : string) : chunk :=
  Data {| type := status_t; content := s |}.
Definition message_event (s : string) : chunk :=
  Data {| type := message_t; content := s |}.
Definition error_event (s : string) : chunk :=
  Data {| type := error_t; content := s |}.

(** The message frame for a [content] that may be [undefined]. *)
Definition message_chunk (content : option string) : chunk :=
  match content with
  | Some s => message_event s
  | None => DataNoContent message_t
  end.

(** The second and third tests of the loop body. *)
Definition is_failure (s : string) : bool :=
  String.eqb s "failed" || String.eqb s "cancelled" || String.eqb s "expired".

Definition is_terminal (s : string) : bool :=
  String.eqb s "completed" || is_failure s.

(** [messages[0].content[0].text.value], with the [TypeError] raised by
    each property read on [undefined]; [None] is a [value] that is
    [undefined], which is read without an error. *)
Definition latest_text (messages : list Message) : js_error + option string :=
  match messages with
  | [] =>
      inl (TypeError "Cannot read properties of undefined (reading 'content')")
  | latestMessage :: _ =>
      match msg_content latestMessage with
      | [] =>
          inl (TypeError "Cannot read properties of undefined (reading 'text')")
      | TextBlock value :: _ => inr (Some value)
      | TextBlockNoValue :: _ => inr None
      | ImageFileBlock _ :: _ =>
          inl (TypeError "Cannot read properties of undefined (reading 'value')")
      end
  end.

Definition sse_headers : list (string * string) :=
  [("Content-Type", "text/event-stream");
   ("Cache-Control", "no-cache");
   ("Connection", "keep-alive")].

Section StreamRun.

Variables thread_id run_id : string.
Variable env : Env.

Definition run_url : string :=
  "/threads/" +:+ thread_id +:+ "/runs/" +:+ run_id.
Definition messages_url : string :=
  "/threads/" +:+ thread_id +:+ "/messages".

(** [await openai.get(url)] up to the point where the promise settles:
    the shared [openai] binding is read when the call is made, the
    request goes out, and other handlers run while it is in flight. *)
Definition openai_get (url : string) (p : await_point) (w : World) : World :=
  await (events env p) (log (Get (openai (globals w)) url) w).

(** [await new Promise((resolve) => setTimeout(resolve, 1000))] *)
Definition sleep_1000 (p : await_point) (w : World) : World :=
  await (events env p) (log (Sleep 1000%Z) w).

(** The [while (true)] loop of [pollRunStatus], from poll [i] on. The
    value of each [res.write] is dropped, as in the source. *)
Fixpoint pollRunStatus (fuel : nat) (i : nat) (w : World) : outcome :=
  match fuel with
  | O => Pending w
  | S fuel' =>
      let w1 := openai_get run_url (AwaitRun i) w in
      match run_fetch env i with
      | Rejected e => Threw e w1
      | Resolved run =>
          let w2 := snd (res_write (status_event (status run)) w1) in
          if String.eqb (status run) "completed" then
            let w3 := openai_get messages_url (AwaitMessages i) w2 in
            match messages_fetch env with
            | Rejected e => Threw e w3
            | Resolved messages =>
                match latest_text messages with
                | inl e => Threw e w3
                | inr text => Returned (snd (res_write (message_chunk text) w3))
                end
            end
          else if is_failure (status run) then
            Returned
              (snd (res_write (error_event ("Run " +:+ status run)) w2))
          else
            pollRunStatus fuel' (S i) (sleep_1000 (AwaitSleep i) w2)
      end
  end.

(** The handler body: head, loop, sentinel, end. *)
Definition stream_run (fuel : nat) (w : World) : outcome :=
  let w0 := log (WriteHead 200%Z sse_headers) w in
  match pollRunStatus fuel 0 w0 with
  | Returned w1 => Returned (res_end (snd (res_write Done w1)))
  | Threw e w1 => Threw e w1
  | Pending w1 => Pending w1
  end.

(** [asyncHandler(fn)]: a rejection of the handler is handed to [next]. *)
Inductive middleware_result : Type :=
  | Handled (w : World)
  | NextCalled (e : js_error) (w : World)
  | Running (w : World).

Definition asyncHandler (fn : World -> outcome) (w : World)
  : middleware_result :=
  match fn w with
  | Returned w' => Handled w'
  | Threw e w' => NextCalled e w'
  | Pending w' => Running w'
  end.

End StreamRun.

(** A fresh request: nothing written yet, connection alive. *)
Definition fresh (g : Globals) : World :=
  {| globals := g; destroyed := false; ended := false; trace := [] |}.

(** The request once the head is written, just before the loop. *)
Definition opened (g : Globals) : World :=
  log (WriteHead 200 sse_headers) (fresh g).

(** ** Reading a trace *)

Definition emitted (tr : list effect) : list chunk :=
  flat_map (fun e => match e with ResWrite c _ => [c] | _ => [] end) tr.

Definition fetches (tr : list effect) : list (Client * string) :=
  flat_map (fun e => match e with Get c u => [(c, u)] | _ => [] end) tr.

Definition sleeps (tr : list effect) : list Z :=
  flat_map (fun e => match e with Sleep ms => [ms] | _ => [] end) tr.

Definition is_status (c : chunk) : bool :=
  match c with
  | Data {| type := status_t |} | DataNoContent status_t => true
  | _ => false
  end.

Definition is_terminal_event (c : chunk) : bool :=
  match c with
  | Data {| type := message_t |} | Data {| type := error_t |}
  | DataNoContent message_t | DataNoContent error_t => true
  | _ => false
  end.

Definition is_done (c : chunk) : bool :=
  match c with
  | Done => true
  | _ => false
  end.

(** ** Scripted environments *)

(** An environment from a finite list of poll answers; polls past the end
    keep seeing ["in_progress"]. *)
Definition scripted (answers : list (settled Run)) (msgs : settled (list Message))
  (evs : await_point -> list ext_event) : Env :=
  {| run_fetch := fun i => default (Resolved {| status := "in_progress" |})
                                   (answers !! i);
     messages_fetch := msgs;
     events := evs |}.

Definition ok (s : string) : settled Run := Resolved {| status := s |}.

Definition text_message (s : string) : Message :=
  {| msg_content := [TextBlock s] |}.

Definition quiet : await_point -> list ext_event := fun _ => [].

Definition g0 : Globals := init_globals (Some "sk-old").

(** ** Vocabulary for statements about the loop *)

Module Obs.
Section Observations.

Variables thread_id run_id : string.
Variable env : Env.

(** One full turn of the loop on a status that is not terminal: fetch,
    status frame, suspension. *)
Definition turn (i : nat) (s : string) (w : World) : World :=
  sleep_1000 env (AwaitSleep i)
    (snd (res_write (status_event s)
            (openai_get env (run_url thread_id run_id) (AwaitRun i) w))).

(** The world after [k] such turns starting at poll [i]. *)
Fixpoint spin (k i : nat) (w : World) : World :=
  match k with
  | O => w
  | S k' =>
      match run_fetch env i with
      | Resolved run => spin k' (S i) (turn i (status run) w)
      | Rejected _ => w
      end
  end.

(** The status tags answered to polls [i], ..., [i + k - 1]; a poll
    whose fetch is rejected answers none. *)
Definition polled (i k : nat) : list string :=
  flat_map (fun j => match run_fetch env j with
                     | Resolved run => [status run]
                     | Rejected _ => []
                     end) (seq i k).

(** Polls [i], ..., [i + k - 1] are answered, none with a terminal tag. *)
Definition still_running (i k : nat) : Prop :=
  forall j, i <= j < i + k ->
    exists run, run_fetch env j = Resolved run /\ is_terminal (status run) = false.

(** The clients used for the run-status polls of a trace, in order. *)
Definition polls (tr : list effect) : list Client :=
  flat_map (fun e => match e with
                     | Get c u =>
                         if String.eqb u (run_url thread_id run_id) then [c] else []
                     | _ => []
                     end) tr.

End Observations.
End Obs.

(** ** Failures inside the loop *)

(** A message payload on which [messages[0].content[0].text.value]
    throws, by its shape: the list is empty, the first message has no
    content block, or its first content block has no [text]. *)
Inductive unreadable : list Message -> js_error -> Prop :=
| no_message :
    unreadable []
      (TypeError "Cannot read properties of undefined (reading 'content')")
| no_content_block latestMessage older :
    msg_content latestMessage = [] ->
    unreadable (latestMessage :: older)
      (TypeError "Cannot read properties of undefined (reading 'text')")
| no_text latestMessage older file_id blocks :
    msg_content latestMessage = ImageFileBlock file_id :: blocks ->
    unreadable (latestMessage :: older)
      (TypeError "Cannot read properties of undefined (reading 'value')").

(** The failures of poll [k] on which the loop throws: the poll itself
    is rejected, or the run is completed and either the message list call
    is rejected or the payload is unreadable. *)
Inductive loop_failure (env : Env) (k : nat) (e : js_error) : Prop :=
| poll_rejected :
    run_fetch env k = Rejected e -> loop_failure env k e
| messages_rejected run :
    run_fetch env k = Resolved run -> status run = "completed" ->
    messages_fetch env = Rejected e -> loop_failure env k e
| payload_unreadable run messages :
    run_fetch env k = Resolved run -> status run = "completed" ->
    messages_fetch env = Resolved messages -> unreadable messages e ->
    loop_failure env k e.

(** No terminal event and no sentinel among the chunks. *)
Definition only_status (cs : list chunk) : bool :=
  forallb is_status cs.

(** ** Vocabulary for the claims *)

(** How many chunks of a list satisfy a test. *)
Definition count (p : chunk -> bool) (cs : list chunk) : nat :=
  length (List.filter p cs).

(** The run reaches a terminal tag at poll [k]: every earlier poll is
    answered with a tag that is not terminal. *)
Definition reaches_terminal (env : Env) (k : nat) : Prop :=
  Obs.still_running env 0 k
  /\ exists run, run_fetch env k = Resolved run
                 /\ is_terminal (status run) = true.

(** A run that is completed on the first poll while the thread's message
    list comes back empty. *)
Definition env_completed_no_messages : Env :=
  scripted [ok "completed"] (Resolved []) quiet.

(** A run that completes on the second poll with one text message. *)
Definition env_queued_completed : Env :=
  scripted [ok "queued"; ok "completed"] (Resolved [text_message "hello"]) quiet.

(** A run that is cancelled on the second poll. *)
Definition env_cancelled : Env :=
  scripted [ok "in_progress"; ok "cancelled"] (Resolved []) quiet.

(** A run whose second poll cannot reach upstream. *)
Definition env_poll_fails : Env :=
  scripted [ok "queued"; Rejected (UpstreamError "Request failed with status code 401")]
           (Resolved []) quiet.

(** ** Vocabulary for disconnects and credential rotation *)

(** What follows the first write that the response refused. *)
Fixpoint after_refused_write (tr : list effect) : list effect :=
  match tr with
  | [] => []
  | ResWrite _ false :: rest => rest
  | _ :: rest => after_refused_write rest
  end.

(** A trace with the outcome of each write forgotten. *)
Definition calls (tr : list effect) : list effect :=
  map (fun e => match e with
                | ResWrite c _ => ResWrite c true
                | _ => e
                end) tr.

Definition forget_sink (w : World) : World :=
  {| globals := globals w; destroyed := false; ended := ended w;
     trace := calls (trace w) |}.

Definition forget_sink_outcome (o : outcome) : outcome :=
  match o with
  | Returned w => Returned (forget_sink w)
  | Threw e w => Threw e (forget_sink w)
  | Pending w => Pending (forget_sink w)
  end.

Definition is_disconnect (ev : ext_event) : bool :=
  match ev with
  | ClientDisconnect => true
  | SetApiKeyRequest _ => false
  end.

(** The same environment with a client that never goes away. *)
Definition without_disconnect (env : Env) : Env :=
  {| run_fetch := run_fetch env;
     messages_fetch := messages_fetch env;
     events := fun p => List.filter (fun ev => negb (is_disconnect ev))
                                    (events env p) |}.

(** The client drops the connection while the loop sleeps after the second
    status frame; the run completes on the fifth poll. *)
Definition env_disconnect : Env :=
  scripted [ok "in_progress"; ok "in_progress"; ok "in_progress";
            ok "in_progress"; ok "completed"]
           (Resolved [text_message "hello"])
           (fun p => match p with
                     | AwaitSleep 1 => [ClientDisconnect]
                     | _ => []
                     end).





(** A run that upstream keeps reporting with a tag outside the known set. *)
Definition env_requires_action : Env :=
  {| run_fetch := fun _ => ok "requires_action";
     messages_fetch := Resolved [];
     events := quiet |}.

(** ** JavaScript values and JSON.stringify *)

(** The values that tool functions take and return. Numbers are the
    integral ones; cyclic objects cannot be written down here. *)
#[warnings="-register-all"]
Inductive jsval : Type :=
| VUndefined
| VNull
| VBool (b : bool)
| VNum (z : Z)
| VBigInt (z : Z)
| VStr (s : string)
| VArr (items : list jsval)
| VObj (fields : list (string * jsval)).

(** [JSON.stringify(v)] gives a text, gives [undefined], or throws. *)
Inductive stringified : Type :=
| Text (s : string)
| NoText
| StringifyThrows (e : js_error).

Definition bigint_error : js_error :=
  TypeError "Do not know how to serialize a BigInt".

Fixpoint join (sep : string) (parts : list string) : string :=
  match parts with
  | [] => EmptyString
  | [p] => p
  | p :: rest => p +:+ sep +:+ join sep rest
  end.

(** Inside an array [undefined] is written as [null]; inside an object a
    property whose value is [undefined] is left out; a BigInt anywhere
    makes the whole call throw. *)
Fixpoint JSON_stringify (v : jsval) : stringified :=
  match v with
  | VUndefined => NoText
  | VNull => Text "null"
  | VBool b => Text (if b then "true" else "false")
  | VNum z => Text (pretty z)
  | VBigInt _ => StringifyThrows bigint_error
  | VStr s => Text (json_string s)
  | VArr items =>
      let fix elements (l : list jsval) : js_error + list string :=
        match l with
        | [] => inr []
        | x :: rest =>
            match JSON_stringify x with
            | StringifyThrows e => inl e
            | NoText => sum_map (fun e => e) (cons "null") (elements rest)
            | Text s => sum_map (fun e => e) (cons s) (elements rest)
            end
        end in
      match elements items with
      | inl e => StringifyThrows e
      | inr parts => Text ("[" +:+ join "," parts +:+ "]")
      end
  | VObj fields =>
      let fix members (l : list (string * jsval)) : js_error + list string :=
        match l with
        | [] => inr []
        | (k, x) :: rest =>
            match JSON_stringify x with
            | StringifyThrows e => inl e
            | NoText => members rest
            | Text s =>
                sum_map (fun e => e) (cons (json_string k +:+ ":" +:+ s))
                        (members rest)
            end
        end in
      match members fields with
      | inl e => StringifyThrows e
      | inr parts => Text ("{" +:+ join "," parts +:+ "}")
      end
  end.

(** ** [handleToolCalls] *)

Module ToolCalls.

(** [call.function] *)
Record FunctionRef : Type := { name : string }.

(** One element of [tool_calls]. The three properties the code reads:
    [function] may be missing, [arguments] is [VUndefined] when missing. *)
Record ToolCall : Type := {
  id : jsval;
  function : option FunctionRef;
  arguments : jsval
}.

(** [{ tool_call_id, output }]; [output] is [None] when [JSON.stringify]
    gave [undefined]. *)
Record ToolOutput : Type := {
  tool_call_id : jsval;
  output : option string
}.

(** What a [catch] clause can receive. A function may throw (or reject
    with) any value: an error object, [null], [undefined], or some other
    value without a [message], such as a string. *)
Inductive thrown : Type :=
| AnError (e : js_error)
| ThrownNull
| ThrownUndefined
| ThrownPlain.

(** [error.message]: reading it off [null] or [undefined] throws; a
    value without the property gives [undefined]. *)
Definition message_read (error : thrown) : js_error + option string :=
  match error with
  | AnError e => inr (Some (message_of e))
  | ThrownNull =>
      inl (TypeError "Cannot read properties of null (reading 'message')")
  | ThrownUndefined =>
      inl (TypeError "Cannot read properties of undefined (reading 'message')")
  | ThrownPlain => inr None
  end.

(** What awaiting a call of a global function comes to. *)
Inductive call_result : Type :=
| Returns (v : jsval)
| Throws (error : thrown)
| NeverSettles.

(** A promise seen from outside, once everything that can happen has. *)
Inductive promise (A : Type) : Type :=
| Fulfilled (a : A)
| RejectedWith (e : js_error)
| Unsettled.
Arguments Fulfilled {A} a.
Arguments RejectedWith {A} e.
Arguments Unsettled {A}.

(** [Promise.all] over promises that are already known. It rejects as
    soon as one input rejects, with that input's reason; the reasons of
    all rejected inputs are kept, since which one comes first in time is
    not determined by the list order. *)
Inductive all_result (A : Type) : Type :=
| AllFulfilled (values : list A)
| AllRejected (reasons : list js_error)
| AllUnsettled.
Arguments AllFulfilled {A} values.
Arguments AllRejected {A} reasons.
Arguments AllUnsettled {A}.

Definition reasons_of {A} (ps : list (promise A)) : list js_error :=
  flat_map (fun p => match p with RejectedWith e => [e] | _ => [] end) ps.

Fixpoint values_of {A} (ps : list (promise A)) : option (list A) :=
  match ps with
  | [] => Some []
  | Fulfilled a :: rest => option_map (cons a) (values_of rest)
  | _ :: _ => None
  end.

Definition Promise_all {A} (ps : list (promise A)) : all_result A :=
  match reasons_of ps with
  | _ :: _ => AllRejected (reasons_of ps)
  | [] =>
      match values_of ps with
      | Some values => AllFulfilled values
      | None => AllUnsettled
      end
  end.

Definition undefined_name : js_error :=
  TypeError "Cannot read properties of undefined (reading 'name')".

(** [{ error: msg }] *)
Definition error_object (msg : string) : jsval := VObj [("error", VStr msg)].

Section Dispatch.

(** The function-valued properties of [global], by name, and
    [JSON.parse]; both come from the runtime. *)
Variable global : gmap string (jsval -> call_result).
Variable JSON_parse : jsval -> js_error + jsval.

(** How the [try] block ends. *)
Inductive try_result : Type :=
| Completed (output : jsval)
| Caught (error : thrown)
| Hangs.

Definition try_block (func : option FunctionRef) (args : jsval) : try_result :=
  match func with
  | None => Caught (AnError undefined_name)            (* func.name *)
  | Some f =>
      match global !! name f with
      | Some fn =>
          match JSON_parse args with
          | inl e => Caught (AnError e)
          | inr parsed =>
              match fn parsed with
              | Returns v => Completed v
              | Throws error => Caught error
              | NeverSettles => Hangs
              end
          end
      | None =>
          Completed (error_object ("Unknown function: " +:+ name f))
      end
  end.

(** The [catch] block: it reads [func.name] again, then
    [error.message]; either read can throw. *)
Definition catch_block (func : option FunctionRef) (error : thrown)
  : js_error + jsval :=
  match func with
  | None => inl undefined_name
  | Some f =>
      match message_read error with
      | inl e => inl e
      | inr message =>
          inr (error_object
                 ("Error executing " +:+ name f +:+ ": " +:+ template message))
      end
  end.

(** The last statement of the callback; [JSON.stringify] is outside the
    [try]. *)
Definition finish (id : jsval) (output : jsval) : promise ToolOutput :=
  match JSON_stringify output with
  | Text s => Fulfilled {| tool_call_id := id; output := Some s |}
  | NoText => Fulfilled {| tool_call_id := id; output := None |}
  | StringifyThrows e => RejectedWith e
  end.

(** The async callback given to [tool_calls.map]. *)
Definition callback (call : ToolCall) : promise ToolOutput :=
  let func := function call in
  let args := arguments call in
  match try_block func args with
  | Completed output => finish (id call) output
  | Caught error =>
      match catch_block func error with
      | inl e => RejectedWith e
      | inr output => finish (id call) output
      end
  | Hangs => Unsettled
  end.

Definition handleToolCalls (tool_calls : list ToolCall)
  : all_result ToolOutput :=
  Promise_all (map callback tool_calls).

(** A call that the callback can answer: it carries a function
    descriptor, and the function it names, if [global] has one and the
    arguments parse, returns a value that serialises to a text or throws
    a value other than [null] and [undefined]. *)
Definition answerable (call : ToolCall) : Prop :=
  exists f, function call = Some f
    /\ match global !! name f with
       | None => True
       | Some fn =>
           match JSON_parse (arguments call) with
           | inl _ => True
           | inr parsed =>
               match fn parsed with
               | Returns v => exists s, JSON_stringify v = Text s
               | Throws error => exists message, message_read error = inr message
               | NeverSettles => False
               end
           end
       end.

(** An output that answers a call: it carries the call's id and the
    serialisation of some value; for a name that [global] does not have
    and for a function that throws, that value is the error object the
    callback builds. *)
Definition answers (call : ToolCall) (o : ToolOutput) : Prop :=
  tool_call_id o = id call
  /\ exists v s,
       output o = Some s /\ JSON_stringify v = Text s
       /\ (forall f, function call = Some f -> global !! name f = None ->
           v = error_object ("Unknown function: " +:+ name f))
       /\ (forall f fn parsed error message,
             function call = Some f -> global !! name f = Some fn ->
             JSON_parse (arguments call) = inr parsed ->
             fn parsed = Throws error -> message_read error = inr message ->
             v = error_object
                   ("Error executing " +:+ name f +:+ ": " +:+ template message)).

End Dispatch.

(** The serialised [{ error: msg }]. *)
Definition error_text (msg : string) : string :=
  "{" +:+ json_string "error" +:+ ":" +:+ json_string msg +:+ "}".

(** [JSON.parse] on the few atoms used in the examples below. *)
Definition parse_atom (v : jsval) : js_error + jsval :=
  match v with
  | VStr "1" => inr (VNum 1)
  | VStr "null" | VNull => inr VNull
  | VStr "true" | VBool true => inr (VBool true)
  | VStr "false" | VBool false => inr (VBool false)
  | VNum z => inr (VNum z)
  | _ => inl (SyntaxError "Unexpected token in JSON")
  end.

(** Three functions as Node's [global] has them, on the values used
    below: [BigInt] turns a number into a BigInt, [clearTimeout] returns
    [undefined], [structuredClone] returns its argument. *)
Definition node_globals : gmap string (jsval -> call_result) :=
  <["BigInt" := fun v => match v with
                         | VNum z => Returns (VBigInt z)
                         | _ => Throws (AnError
                                          (SyntaxError "Cannot convert to a BigInt"))
                         end]>
  (<["clearTimeout" := fun _ => Returns VUndefined]>
  (<["structuredClone" := fun v => Returns v]> ∅)).

(** Two tool functions as a deployment might put them on [global]: one
    rejects without a reason ([Promise.reject()]), one throws an
    [Error]. *)
Definition tool_globals : gmap string (jsval -> call_result) :=
  <["lookup_order" := fun _ => Throws ThrownUndefined]>
  (<["get_time" := fun _ => Throws (AnError (Error "clock unavailable"))]> ∅).

Definition call_lookup_order : ToolCall :=
  {| id := VStr "call_6"; function := Some {| name := "lookup_order" |};
     arguments := VStr "null" |}.

Definition call_get_time : ToolCall :=
  {| id := VStr "call_7"; function := Some {| name := "get_time" |};
     arguments := VStr "null" |}.

Definition call_without_function : ToolCall :=
  {| id := VStr "call_1"; function := None; arguments := VUndefined |}.

Definition call_BigInt : ToolCall :=
  {| id := VStr "call_2"; function := Some {| name := "BigInt" |};
     arguments := VStr "1" |}.

Definition call_clearTimeout : ToolCall :=
  {| id := VStr "call_3"; function := Some {| name := "clearTimeout" |};
     arguments := VStr "1" |}.

Definition call_unknown : ToolCall :=
  {| id := VStr "call_4"; function := Some {| name := "get_weather" |};
     arguments := VUndefined |}.

Definition call_clone : ToolCall :=
  {| id := VStr "call_5"; function := Some {| name := "structuredClone" |};
     arguments := VStr "true" |}.

End ToolCalls.

(** ** The [/upload-file] handler *)

Module UploadFile.

(** The names index.js can see at the [openai.post] call: its imports,
    its top-level [const] and [let] declarations, the handler's own
    parameters and locals, and the globals of the runtime it uses.
    apiKeyManager.js keeps its [OPENAI_API_KEY] to itself; index.js imports
    [setApiKey] only. *)
Definition imports : list string :=
  ["express"; "dotenv"; "multer"; "fs"; "path"; "rateLimit"; "helmet";
   "uuidv4"; "cors"; "fileURLToPath"; "dirname"; "FormData"; "setApiKey";
   "createOpenAIInstance"].

Definition declarations : list string :=
  ["__filename"; "__dirname"; "app"; "openai"; "currentRateLimit";
   "currentFileSize"; "getLimiter"; "getUpload"; "storage"; "errorHandler";
   "asyncHandler"; "handleToolCalls"; "PORT"].

Definition handler_locals : list string := ["req"; "res"; "form"; "response"].

Definition runtime_globals : list string :=
  ["process"; "console"; "global"; "JSON"; "Promise"; "Error"; "setTimeout"].

Definition handler_scope : gset string :=
  list_to_set (imports ++ declarations ++ handler_locals ++ runtime_globals).

(** Reading an identifier in module code. *)
Definition resolve (scope : gset string) (x : string) : option js_error :=
  if decide (x ∈ scope) then None
  else Some (ReferenceError (x +:+ " is not defined")).

(** [req.file] as multer leaves it, and [req.body.purpose]. *)
Record File : Type := {
  path : string;
  originalname : string;
  mimetype : string
}.

Record Request : Type := {
  file : option File;
  purpose : option string
}.

Inductive effect : Type :=
| ConsoleLog
| CreateReadStream (p : string)
| Post (c : Client) (url : string) (authorization_header : string)
| UnlinkSync (p : string)
| ResJson (data : string)
| ConsoleError (msg : string).

Inductive result : Type :=
| Sent (tr : list effect)
| Thrown (e : js_error) (tr : list effect).


(** The handler, for a given scope. [key_text] is what the template
    literal shows for [OPENAI_API_KEY] where the scope has it; [post] is
    what upstream answers if it is asked. The arguments of [openai.post]
    are evaluated inside the [try], before the call. *)
Definition upload_file (scope : gset string) (key_text : string)
  (openai : Client) (post : settled string) (req : Request) : result :=
  match file req with
  | None => Thrown (Error "No file uploaded") []
  | Some f =>
      let tr := [ConsoleLog; CreateReadStream (path f)] in
      match resolve scope "OPENAI_API_KEY" with
      | Some error =>
          Thrown (Error "Failed to upload file to OpenAI")
                 (tr ++ [ConsoleError (message_of error)])
      | None =>
          let tr1 := tr ++ [Post openai "/files" ("Bearer " +:+ key_text)] in
          match post with
          | Resolved data => Sent (tr1 ++ [UnlinkSync (path f); ResJson data])
          | Rejected error =>
              Thrown (Error "Failed to upload file to OpenAI")
                     (tr1 ++ [ConsoleError (message_of error)])
          end
      end
  end.


Definition a_pdf : File :=
  {| path := "uploads/3f2a.pdf"; originalname := "notes.pdf";
     mimetype := "application/pdf" |}.

End UploadFile.

(** ** More ways to read a trace *)

(** The pace of the loop: a run-status poll, or a suspension. *)
Inductive beat : Type :=
| Poll
| Nap (ms : Z).

Definition rhythm (thread_id run_id : string) (tr : list effect) : list beat :=
  flat_map (fun e => match e with
                     | Get _ u =>
                         if String.eqb u (run_url thread_id run_id)
                         then [Poll] else []
                     | Sleep ms => [Nap ms]
                     | _ => []
                     end) tr.

(** The clients used for the message-list calls of a trace. *)
Definition message_fetches (thread_id : string) (tr : list effect)
  : list Client :=
  flat_map (fun e => match e with
                     | Get c u =>
                         if String.eqb u (messages_url thread_id)
                         then [c] else []
                     | _ => []
                     end) tr.

Definition heads (tr : list effect) : list (Z * list (string * string)) :=
  flat_map (fun e => match e with
                     | WriteHead code hs => [(code, hs)]
                     | _ => []
                     end) tr.

Definition has_settled (o : outcome) : bool :=
  match o with
  | Pending _ => false
  | _ => true
  end.

(** No credential update arrives while the stream runs. *)
Definition no_key_requests (env : Env) : Prop :=
  forall p, forallb is_disconnect (events env p) = true.

(** The client drops the connection during the first poll; no credential
    update arrives. The run fails on the second poll. *)
Definition env_disconnect_early : Env :=
  scripted [ok "queued"; ok "failed"] (Resolved [])
           (fun p => match p with
                     | AwaitRun 0 => [ClientDisconnect]
                     | _ => []
                     end).

(** ** Sequences of credential updates *)

(** The module state after the [/set-api-key] requests with these
    [apiKey] fields have been served, oldest first. *)
Definition serve_key_requests (bodies : list (option string)) (g : Globals)
  : Globals :=
  foldl (fun g body => snd (set_api_key body g)) g bodies.

(** The last truthy key of a sequence, or [start] if there is none. *)
Fixpoint last_accepted (bodies : list (option string)) (start : option string)
  : option string :=
  match bodies with
  | [] => start
  | body :: rest => last_accepted rest (if truthy body then body else start)
  end.

(** ** Rate-limit and file-size settings *)

Module Settings.

(** [{ windowMs, max }]; a field the request body lacks is [VUndefined]. *)
Record RateLimit : Type := { windowMs : jsval; max : jsval }.

(** The two [let] bindings. Sizes are whole numbers of bytes that a
    double holds exactly; [None] is [NaN]. *)
Record Current : Type := {
  currentRateLimit : RateLimit;
  currentFileSize : option Z
}.

Definition initial : Current :=
  {| currentRateLimit := {| windowMs := VNum (15 * 60 * 1000); max := VNum 100 |};
     currentFileSize := Some (10 * 1024 * 1024)%Z |}.

(** The options [getLimiter] hands to [rateLimit] ... *)
Definition getLimiter (c : Current) : RateLimit :=
  {| windowMs := windowMs (currentRateLimit c);
     max := max (currentRateLimit c) |}.

(** ... and the [limits.fileSize] that [getUpload] hands to [multer]. *)
Definition getUpload (c : Current) : option Z := currentFileSize c.

(** The server: the two bindings, and the two middlewares as they were
    built. [app.use(getLimiter())] and
    [app.post("/upload-file", getUpload().single("file"), ...)] run once,
    while the module is evaluated. *)
Record Server : Type := {
  current : Current;
  limiter : RateLimit;
  upload_limit : option Z
}.

Definition boot : Server :=
  {| current := initial;
     limiter := getLimiter initial;
     upload_limit := getUpload initial |}.

Inductive request : Type :=
| UpdateRateLimit (body_windowMs body_max : jsval)
| UpdateFileSize (body_fileSize : option Z)
| ApiDefaults.

(** What a reply says about the settings. *)
Inductive reply : Type :=
| RateLimitUpdated (reported : RateLimit)
| FileSizeUpdated (reported_bytes : option Z)
| Defaults (rateLimit : RateLimit) (fileSize_MB : option Z).

(** [fileSize * 1024 * 1024]; a missing field gives [NaN]. *)
Definition to_bytes (fileSize : option Z) : option Z :=
  option_map (fun n => n * 1024 * 1024)%Z fileSize.

(** [currentFileSize / (1024 * 1024)]. The binding only ever holds a
    multiple of 1048576 (see [initial] and [to_bytes]), on which this
    division is exact. *)
Definition to_megabytes (bytes : option Z) : option Z :=
  option_map (fun b => b / (1024 * 1024))%Z bytes.

Definition handle (r : request) (s : Server) : reply * Server :=
  match r with
  | UpdateRateLimit w m =>
      let rl := {| windowMs := w; max := m |} in
      (RateLimitUpdated rl,
       {| current := {| currentRateLimit := rl;
                        currentFileSize := currentFileSize (current s) |};
          limiter := limiter s; upload_limit := upload_limit s |})
  | UpdateFileSize fileSize =>
      let bytes := to_bytes fileSize in
      (FileSizeUpdated bytes,
       {| current := {| currentRateLimit := currentRateLimit (current s);
                        currentFileSize := bytes |};
          limiter := limiter s; upload_limit := upload_limit s |})
  | ApiDefaults =>
      (Defaults (currentRateLimit (current s))
                (to_megabytes (currentFileSize (current s))), s)
  end.

Definition serve (rs : list request) (s : Server) : Server :=
  foldl (fun s r => snd (handle r s)) s rs.

(** The last rate limit and the last file size that a sequence of
    requests asks for. *)
Fixpoint last_rate_limit (rs : list request) (start : RateLimit) : RateLimit :=
  match rs with
  | [] => start
  | UpdateRateLimit w m :: rest =>
      last_rate_limit rest {| windowMs := w; max := m |}
  | _ :: rest => last_rate_limit rest start
  end.

Fixpoint last_file_size (rs : list request) (start : option Z) : option Z :=
  match rs with
  | [] => start
  | UpdateFileSize n :: rest => last_file_size rest n
  | _ :: rest => last_file_size rest start
  end.

(** The whole numbers that are doubles: on them the arithmetic above is
    JavaScript's (multiplying and dividing by a power of two is exact). *)
Definition exact_size (n : option Z) : Prop :=
  match n with
  | Some z => (Z.abs z <= 2 ^ 53)%Z
  | None => True
  end.

End Settings.

(** ** The routing table *)

Module Router.

Inductive method : Type := GET | HEAD | POST | PATCH | DELETE | PUT.

(** A piece of a path: fixed text, or a named parameter. *)
Inductive seg : Type :=
| Lit (text : string)
| Param (name : string).

(** [openai.get], [openai.post], [openai.delete] *)
Inductive upstream_verb : Type := UGet | UPost | UDelete.

(** What a route does. A forwarding route calls upstream at [target],
    with [req.body] as payload and [req.query] as parameters where the
    source passes them. *)
Inductive handler : Type :=
| Forward (verb : upstream_verb) (target : list seg)
          (sends_body sends_query : bool)
| SendIndex
| UpdateRateLimit
| UpdateFileSize
| ApiDefaults
| StreamRun
| UploadFile
| ExecuteTools
| SetApiKey.

Record route : Type := {
  verb : method;
  pattern : list seg;
  action : handler
}.

Inductive middleware : Type :=
| JsonBody | Cors | UrlEncoded | Static | Helmet
| JsonBody10mb | UrlEncoded10mb | RateLimiter.

Inductive layer : Type :=
| Use (m : middleware)
| Route (r : route).

#[global] Instance method_eq_dec : EqDecision method.
Proof. solve_decision. Defined.
#[global] Instance seg_eq_dec : EqDecision seg.
Proof. solve_decision. Defined.
#[global] Instance upstream_verb_eq_dec : EqDecision upstream_verb.
Proof. solve_decision. Defined.
#[global] Instance handler_eq_dec : EqDecision handler.
Proof. solve_decision. Defined.
#[global] Instance route_eq_dec : EqDecision route.
Proof. solve_decision. Defined.
#[global] Instance middleware_eq_dec : EqDecision middleware.
Proof. solve_decision. Defined.
#[global] Instance layer_eq_dec : EqDecision layer.
Proof. solve_decision. Defined.

Definition forward (v : method) (p : list seg) (u : upstream_verb)
  (target : list seg) (body query : bool) : layer :=
  Route {| verb := v; pattern := p; action := Forward u target body query |}.

Definition special (v : method) (p : list seg) (h : handler) : layer :=
  Route {| verb := v; pattern := p; action := h |}.

(** What index.js registers before the rate limiter ... *)
Definition before_limiter : list layer :=
  [Use JsonBody; Use Cors; Use UrlEncoded; Use Static;
   special GET [] SendIndex;
   Use Helmet; Use JsonBody10mb; Use UrlEncoded10mb;
   special POST [Lit "update-rate-limit"] UpdateRateLimit;
   special POST [Lit "update-file-size"] UpdateFileSize;
   special GET [Lit "api-defaults"] ApiDefaults].

(** ... and after it, in source order. *)
Definition after_limiter : list layer :=
  [forward POST [Lit "create-assistant"] UPost [Lit "assistants"] true false;
   forward GET [Lit "list-assistants"] UGet [Lit "assistants"] false true;
   forward GET [Lit "retrieve-assistant"; Param "assistant_id"]
           UGet [Lit "assistants"; Param "assistant_id"] false false;
   forward PATCH [Lit "update-assistant"; Param "assistant_id"]
           UPost [Lit "assistants"; Param "assistant_id"] true false;
   forward DELETE [Lit "delete-assistant"; Param "assistant_id"]
           UDelete [Lit "assistants"; Param "assistant_id"] false false;
   forward POST [Lit "create-thread"] UPost [Lit "threads"] true false;
   forward GET [Lit "retrieve-thread"; Param "thread_id"]
           UGet [Lit "threads"; Param "thread_id"] false false;
   forward PATCH [Lit "update-thread"; Param "thread_id"]
           UPost [Lit "threads"; Param "thread_id"] true false;
   forward DELETE [Lit "delete-thread"; Param "thread_id"]
           UDelete [Lit "threads"; Param "thread_id"] false false;
   forward POST [Lit "create-message"; Param "thread_id"]
           UPost [Lit "threads"; Param "thread_id"; Lit "messages"] true false;
   forward GET [Lit "list-messages"; Param "thread_id"]
           UGet [Lit "threads"; Param "thread_id"; Lit "messages"] false true;
   forward GET [Lit "retrieve-message"; Param "thread_id"; Param "message_id"]
           UGet [Lit "threads"; Param "thread_id"; Lit "messages";
                 Param "message_id"] false false;
   forward PATCH [Lit "update-message"; Param "thread_id"; Param "message_id"]
           UPost [Lit "threads"; Param "thread_id"; Lit "messages";
                  Param "message_id"] true false;
   forward POST [Lit "create-run"; Param "thread_id"]
           UPost [Lit "threads"; Param "thread_id"; Lit "runs"] true false;
   forward GET [Lit "retrieve-run"; Param "thread_id"; Param "run_id"]
           UGet [Lit "threads"; Param "thread_id"; Lit "runs"; Param "run_id"]
           false false;
   forward POST [Lit "cancel-run"; Param "thread_id"; Param "run_id"]
           UPost [Lit "threads"; Param "thread_id"; Lit "runs"; Param "run_id";
                  Lit "cancel"] false false;
   forward POST [Lit "submit-tool-outputs"; Param "thread_id"; Param "run_id"]
           UPost [Lit "threads"; Param "thread_id"; Lit "runs"; Param "run_id";
                  Lit "submit_tool_outputs"] true false;
   forward POST [Lit "create-vector-store"] UPost [Lit "vector_stores"]
           true false;
   forward GET [Lit "list-vector-stores"] UGet [Lit "vector_stores"] false true;
   forward GET [Lit "retrieve-vector-store"; Param "vector_store_id"]
           UGet [Lit "vector_stores"; Param "vector_store_id"] false false;
   forward PATCH [Lit "update-vector-store"; Param "vector_store_id"]
           UPost [Lit "vector_stores"; Param "vector_store_id"] true false;
   forward DELETE [Lit "delete-vector-store"; Param "vector_store_id"]
           UDelete [Lit "vector_stores"; Param "vector_store_id"] false false;
   special POST [Lit "stream-run"; Param "thread_id"; Param "run_id"] StreamRun;
   special POST [Lit "upload-file"] UploadFile;
   forward GET [Lit "list-files"] UGet [Lit "files"] false true;
   forward GET [Lit "retrieve-file"; Param "file_id"]
           UGet [Lit "files"; Param "file_id"] false false;
   forward DELETE [Lit "delete-file"; Param "file_id"]
           UDelete [Lit "files"; Param "file_id"] false false;
   forward GET [Lit "retrieve-file-content"; Param "file_id"]
           UGet [Lit "files"; Param "file_id"; Lit "content"] false false;
   forward GET [Lit "list-run-steps"; Param "thread_id"; Param "run_id"]
           UGet [Lit "threads"; Param "thread_id"; Lit "runs"; Param "run_id";
                 Lit "steps"] false true;
   forward GET [Lit "retrieve-run-step"; Param "thread_id"; Param "run_id";
                Param "step_id"]
           UGet [Lit "threads"; Param "thread_id"; Lit "runs"; Param "run_id";
                 Lit "steps"; Param "step_id"] false false;
   special POST [Lit "execute-tools"; Param "thread_id"; Param "run_id"]
           ExecuteTools;
   special POST [Lit "set-api-key"] SetApiKey].

(** [errorHandler], registered last, is not among the layers: it takes
    four arguments, so it only runs on an error. *)
Definition app : list layer :=
  before_limiter ++ [Use RateLimiter] ++ after_limiter.

Definition routes_of (layers : list layer) : list route :=
  flat_map (fun l => match l with Route r => [r] | Use _ => [] end) layers.

(** Express compares fixed text without regard to case. *)
Definition lower_ascii (c : ascii) : ascii :=
  let n := nat_of_ascii c in
  if Nat.leb 65 n && Nat.leb n 90 then ascii_of_nat (n + 32) else c.

Fixpoint lower (s : string) : string :=
  match s with
  | EmptyString => EmptyString
  | String c s' => String (lower_ascii c) (lower s')
  end.

(** [decodeURIComponent], which Express applies to every parameter. A
    string stands for the UTF-8 bytes of the JavaScript string, so an
    escaped character decodes to the bytes its escapes spell out. *)
Inductive token : Type :=
| Raw (c : ascii)
| Esc (byte : nat).

Definition hex_value (c : ascii) : option nat :=
  let n := nat_of_ascii c in
  if Nat.leb 48 n && Nat.leb n 57 then Some (n - 48)
  else if Nat.leb 65 n && Nat.leb n 70 then Some (n - 55)
  else if Nat.leb 97 n && Nat.leb n 102 then Some (n - 87)
  else None.

Definition percent : ascii := ascii_of_nat 37.

(** A [%] must be followed by two hexadecimal digits. *)
Fixpoint tokens (s : string) : option (list token) :=
  match s with
  | EmptyString => Some []
  | String c rest =>
      if Ascii.eqb c percent then
        match rest with
        | String h (String l rest') =>
            match hex_value h, hex_value l with
            | Some a, Some b => option_map (cons (Esc (16 * a + b))) (tokens rest')
            | _, _ => None
            end
        | _ => None
        end
      else option_map (cons (Raw c)) (tokens rest)
  end.

Definition within (lo hi b : nat) : bool := Nat.leb lo b && Nat.leb b hi.

(** The well-formed UTF-8 sequences of two, three and four bytes. *)
Definition well_formed2 (b0 b1 : nat) : bool :=
  within 194 223 b0 && within 128 191 b1.

Definition well_formed3 (b0 b1 b2 : nat) : bool :=
  within 128 191 b2
  && ((Nat.eqb b0 224 && within 160 191 b1)
      || (within 225 236 b0 && within 128 191 b1)
      || (Nat.eqb b0 237 && within 128 159 b1)
      || (within 238 239 b0 && within 128 191 b1)).

Definition well_formed4 (b0 b1 b2 b3 : nat) : bool :=
  within 128 191 b2 && within 128 191 b3
  && ((Nat.eqb b0 240 && within 144 191 b1)
      || (within 241 243 b0 && within 128 191 b1)
      || (Nat.eqb b0 244 && within 128 143 b1)).

Definition bytes (l : list nat) (s : string) : string :=
  fold_right (fun b acc => String (ascii_of_nat b) acc) s l.

(** An escaped byte below 128 is that character; one from 192 to 247
    opens a sequence of two to four escapes that has to be well formed;
    any other escaped byte is a URIError. *)
Fixpoint decode_tokens (ts : list token) : option string :=
  match ts with
  | [] => Some EmptyString
  | Raw c :: rest => option_map (String c) (decode_tokens rest)
  | Esc b0 :: rest =>
      if Nat.ltb b0 128 then option_map (bytes [b0]) (decode_tokens rest)
      else if within 192 223 b0 then
        match rest with
        | Esc b1 :: rest' =>
            if well_formed2 b0 b1
            then option_map (bytes [b0; b1]) (decode_tokens rest')
            else None
        | _ => None
        end
      else if within 224 239 b0 then
        match rest with
        | Esc b1 :: Esc b2 :: rest' =>
            if well_formed3 b0 b1 b2
            then option_map (bytes [b0; b1; b2]) (decode_tokens rest')
            else None
        | _ => None
        end
      else if within 240 247 b0 then
        match rest with
        | Esc b1 :: Esc b2 :: Esc b3 :: rest' =>
            if well_formed4 b0 b1 b2 b3
            then option_map (bytes [b0; b1; b2; b3]) (decode_tokens rest')
            else None
        | _ => None
        end
      else None
  end.

(** [None] where JavaScript throws a URIError. *)
Definition decodeURIComponent (s : string) : option string :=
  match tokens s with
  | Some ts => decode_tokens ts
  | None => None
  end.

(** What matching a path against a pattern gives: no match, the
    parameters, or a parameter that cannot be decoded. *)
Inductive bound : Type :=
| NoMatch
| Bound (params : list (string * string))
| Malformed (segment : string).

(** A [get] route also answers [HEAD]. *)
Definition method_ok (of_route of_request : method) : bool :=
  match of_route, of_request with
  | GET, GET | GET, HEAD | HEAD, HEAD | POST, POST | PATCH, PATCH
  | DELETE, DELETE | PUT, PUT => true
  | _, _ => false
  end.

(** Where a request ends up: at a route, with the middlewares that ran
    before it; nowhere; at a middleware that ends it instead of passing
    it on; or at the error a parameter that cannot be decoded raises. *)
Inductive served : Type :=
| ByRoute (ran : list middleware) (r : route) (params : list (string * string))
| Unmatched (ran : list middleware)
| EndedBy (ran : list middleware) (mw : middleware)
| BadParameter (ran : list middleware) (segment : string).

Section Matching.

(** The decoder of parameters. *)
Variable decode : string -> option string.

(** Matching a path against a pattern. The path is given as the pieces
    between its slashes, one slash at the end left out: [/a/b] and
    [/a/b/] are both [["a"; "b"]], and [/] is [[]]. Fixed text is
    compared as it stands in the path, without regard to case. A
    parameter takes one piece that is not empty, and is bound to what
    the piece decodes to. When the whole pattern fits, the parameters
    are decoded from left to right and the first that cannot be decoded
    is reported. *)
Fixpoint bind (pattern : list seg) (path : list string) : bound :=
  match pattern, path with
  | [], [] => Bound []
  | Lit text :: pattern', s :: path' =>
      if String.eqb (lower s) (lower text) then bind pattern' path' else NoMatch
  | Param name :: pattern', s :: path' =>
      if String.eqb s EmptyString then NoMatch
      else
        match bind pattern' path' with
        | NoMatch => NoMatch
        | rest =>
            match decode s with
            | None => Malformed s
            | Some value =>
                match rest with
                | Bound params => Bound ((name, value) :: params)
                | other => other
                end
            end
        end
  | _, _ => NoMatch
  end.

(** The path is matched, and the parameters are decoded, before the
    method is looked at. *)
Definition accepts (r : route) (m : method) (path : list string) : bound :=
  match bind (pattern r) path with
  | Bound params => if method_ok (verb r) m then Bound params else NoMatch
  | other => other
  end.

(** [ends mw] tells whether the middleware ends this request, with a
    reply of its own or with an error, instead of passing it on: a file
    found in [public], a body that cannot be parsed, a client over its
    rate limit. *)
Variable ends : middleware -> bool.

(** The layers are tried in the order of their registration. After a
    parameter that cannot be decoded no further layer runs but the
    error handler. *)
Fixpoint dispatch (layers : list layer) (m : method) (path : list string)
  (ran : list middleware) : served :=
  match layers with
  | [] => Unmatched ran
  | Use mw :: rest =>
      if ends mw then EndedBy ran mw
      else dispatch rest m path (ran ++ [mw])
  | Route r :: rest =>
      match accepts r m path with
      | Bound params => ByRoute ran r params
      | Malformed segment => BadParameter ran segment
      | NoMatch => dispatch rest m path ran
      end
  end.

End Matching.

(** [req.params.name] *)
Fixpoint param (name : string) (params : list (string * string))
  : option string :=
  match params with
  | [] => None
  | (k, v) :: rest => if String.eqb k name then Some v else param name rest
  end.

(** The upstream path a template literal builds. *)
Fixpoint fill (target : list seg) (params : list (string * string)) : string :=
  match target with
  | [] => EmptyString
  | Lit text :: rest => "/" +:+ text +:+ fill rest params
  | Param name :: rest => "/" +:+ template (param name params) +:+ fill rest params
  end.

Definition params_of (segs : list seg) : list string :=
  flat_map (fun s => match s with Param name => [name] | Lit _ => [] end) segs.

(** A request on which every middleware passes. *)
Definition all_pass : middleware -> bool := fun _ => false.

(** The four routes registered ahead of the limiter. *)
Definition unlimited (h : handler) : bool :=
  match h with
  | SendIndex | UpdateRateLimit | UpdateFileSize | ApiDefaults => true
  | _ => false
  end.

(** What the upstream call of a forwarding route is for each local
    method. *)
Definition verb_for (m : method) : upstream_verb :=
  match m with
  | GET | HEAD => UGet
  | POST | PATCH | PUT => UPost
  | DELETE => UDelete
  end.

(** The first fixed text of a pattern, and of a path. *)
Definition pattern_key (p : list seg) : option string :=
  match p with
  | Lit text :: _ => Some (lower text)
  | _ => None
  end.

Definition path_key (path : list string) : option string :=
  match path with
  | s :: _ => Some (lower s)
  | [] => None
  end.

Definition starts_fixed (p : list seg) : bool :=
  match p with
  | Param _ :: _ => false
  | _ => true
  end.

Definition retrieve_run : route :=
  {| verb := GET;
     pattern := [Lit "retrieve-run"; Param "thread_id"; Param "run_id"];
     action := Forward UGet [Lit "threads"; Param "thread_id"; Lit "runs";
                             Param "run_id"] false false |}.

Definition update_thread : route :=
  {| verb := PATCH;
     pattern := [Lit "update-thread"; Param "thread_id"];
     action := Forward UPost [Lit "threads"; Param "thread_id"] true false |}.

Definition update_rate_limit : route :=
  {| verb := POST; pattern := [Lit "update-rate-limit"];
     action := UpdateRateLimit |}.

(** A forwarding route calls upstream with the verb that goes with its
    own method, and names in its target only parameters of its pattern. *)
Definition forwards_well (r : route) : bool :=
  match action r with
  | Forward v target _ _ =>
      bool_decide (v = verb_for (verb r))
      && forallb (fun name => bool_decide (name ∈ params_of (pattern r)))
                 (params_of target)
  | _ => true
  end.

End Router.

(** ** [errorHandler] and what a route answers *)

Module Errors.

(** A reply: the status code and the JSON body. *)
Record Reply : Type := { code : Z; body : jsval }.

(** [res.status(error.status || 500).json({ error: { message:
    error.message || "Internal Server Error" } })]. [status] is
    [error.status], [None] when the error has no such property. *)
Definition errorHandler (error : js_error) (status : option Z) : Reply :=
  {| code := match status with
             | Some n => if Z.eqb n 0 then 500%Z else n
             | None => 500%Z
             end;
     body := VObj [("error",
                    VObj [("message",
                           VStr (if String.eqb (message_of error) EmptyString
                                 then "Internal Server Error"
                                 else message_of error))])] |}.

(** [res.json(data)] on a fresh response. *)
Definition json (data : jsval) : Reply := {| code := 200%Z; body := data |}.

End Errors.

(** ** The whole [/upload-file] route *)

Module UploadRoute.

(** The [file] part of the multipart body as multer sees it; [too_large]
    tells whether it exceeds the size limit in force. *)
Inductive incoming : Type :=
| NoFilePart
| FilePart (originalname mimetype : string) (too_large : bool).

Definition allowedTypes : list string :=
  ["image/jpeg"; "image/png"; "application/pdf"; "text/plain";
   "application/msword";
   "application/vnd.openxmlformats-officedocument.wordprocessingml.document";
   "application/json"].

(** [allowedTypes.includes(file.mimetype)] *)
Definition includes (l : list string) (x : string) : bool :=
  existsb (String.eqb x) l.

(** The [fileFilter] callback: [None] is [cb(null, true)]. *)
Definition fileFilter (mimetype : string) : option js_error :=
  if includes allowedTypes mimetype then None
  else Some (Error ("Invalid file type. Only JPEG, PNG, PDF, TXT, DOC, DOCX, "
                    +:+ "and JSON are allowed. Received: " +:+ mimetype)).

(** [getUpload().single("file")]: the request goes on with [req.file]
    set or not, or multer reports an error. [stored_at] is the path the
    disk storage chose. *)
Definition single (stored_at : string) (part : incoming)
  : js_error + option UploadFile.File :=
  match part with
  | NoFilePart => inr None
  | FilePart originalname mimetype too_large =>
      match fileFilter mimetype with
      | Some e => inl e
      | None =>
          if too_large then inl (Error "File too large")
          else inr (Some {| UploadFile.path := stored_at;
                            UploadFile.originalname := originalname;
                            UploadFile.mimetype := mimetype |})
      end
  end.

(** The argument of [res.json] in a trace. *)
Definition sent_data (tr : list UploadFile.effect) : jsval :=
  match flat_map (fun e => match e with
                           | UploadFile.ResJson data => [data]
                           | _ => []
                           end) tr with
  | data :: _ => VStr data
  | [] => VUndefined
  end.

(** The route: multer, then the handler under [asyncHandler], then
    [errorHandler] for whatever was passed to [next]. None of the errors
    raised here has a [status]. *)
Definition route (stored_at : string) (key_text : string) (openai : Client)
  (post : settled string) (part : incoming) (purpose : option string)
  : Errors.Reply * list UploadFile.effect :=
  match single stored_at part with
  | inl e => (Errors.errorHandler e None, [])
  | inr file =>
      match UploadFile.upload_file UploadFile.handler_scope key_text openai post
              {| UploadFile.file := file; UploadFile.purpose := purpose |} with
      | UploadFile.Sent tr => (Errors.json (sent_data tr), tr)
      | UploadFile.Thrown e tr => (Errors.errorHandler e None, tr)
      end
  end.


End UploadRoute.

(** ** The [/execute-tools/:thread_id/:run_id] handler *)

Module ExecuteTools.

(** How the handler ends: it called upstream with the outputs (and then
    relays the answer or passes the failure on), or it passed one of
    [reasons] to [next] without calling upstream, or it never got past
    [handleToolCalls]. *)
Inductive result : Type :=
| Posted (c : Client) (url : string)
         (tool_outputs : list ToolCalls.ToolOutput) (answer : settled jsval)
| Failed (reasons : list js_error)
| Stuck.

Definition submit_url (thread_id run_id : string) : string :=
  "/threads/" +:+ thread_id +:+ "/runs/" +:+ run_id +:+ "/submit_tool_outputs".

Definition undefined_map : js_error :=
  TypeError "Cannot read properties of undefined (reading 'map')".

Section Handler.

Variable global : gmap string (jsval -> ToolCalls.call_result).
Variable JSON_parse : jsval -> js_error + jsval.

(** [tool_calls] is [req.body.tool_calls], [None] when the body has no
    such field; [c] is the shared client when the upstream call is made
    and [answer] what upstream says to it. *)
Definition execute_tools (thread_id run_id : string)
  (tool_calls : option (list ToolCalls.ToolCall))
  (c : Client) (answer : settled jsval) : result :=
  match tool_calls with
  | None => Failed [undefined_map]
  | Some calls =>
      match ToolCalls.handleToolCalls global JSON_parse calls with
      | ToolCalls.AllFulfilled toolOutputs =>
          Posted c (submit_url thread_id run_id) toolOutputs answer
      | ToolCalls.AllRejected reasons => Failed reasons
      | ToolCalls.AllUnsettled => Stuck
      end
  end.

(** A call on which the callback rejects: it has no function descriptor,
    or its function returns a value that [JSON.stringify] throws on, or
    its function throws [null] or [undefined]. *)
Definition breaks (call : ToolCalls.ToolCall) : Prop :=
  ToolCalls.function call = None
  \/ (exists f fn parsed v e,
        ToolCalls.function call = Some f
        /\ global !! ToolCalls.name f = Some fn
        /\ JSON_parse (ToolCalls.arguments call) = inr parsed
        /\ fn parsed = ToolCalls.Returns v
        /\ JSON_stringify v = StringifyThrows e)
  \/ (exists f fn parsed error e,
        ToolCalls.function call = Some f
        /\ global !! ToolCalls.name f = Some fn
        /\ JSON_parse (ToolCalls.arguments call) = inr parsed
        /\ fn parsed = ToolCalls.Throws error
        /\ ToolCalls.message_read error = inl e).

End Handler.

(** A tool call shaped as upstream sends it: the arguments sit under
    [function], so the call itself has no [arguments] property. *)
Definition upstream_shaped (call_id name : string) : ToolCalls.ToolCall :=
  {| ToolCalls.id := VStr call_id;
     ToolCalls.function := Some {| ToolCalls.name := name |};
     ToolCalls.arguments := VUndefined |}.

End ExecuteTools.

(** ** Frames on the wire *)

(** No character below the space: no line feed, no carriage return. *)
Fixpoint no_control (s : string) : bool :=
  match s with
  | EmptyString => true
  | String c s' => Nat.leb 32 (nat_of_ascii c) && no_control s'
  end.

(** ** Message payloads of other shapes *)

(** The run is completed on the first poll; the newest message starts
    with an image and has its text in the second block. *)
Definition env_image_first : Env :=
  scripted [ok "completed"]
           (Resolved [{| msg_content := [ImageFileBlock "file-1"; TextBlock "hi"] |};
                      text_message "older"])
           quiet.

(** The run is completed on the first poll; the first block of the only
    message has a [text] without a [value]. *)
Definition env_text_without_value : Env :=
  scripted [ok "completed"]
           (Resolved [{| msg_content := [TextBlockNoValue] |}])
           quiet.

(** * Facts about the streaming handler *)

Lemma emitted_app (a b : list effect) : emitted (a ++ b) = emitted a ++ emitted b.
Proof. unfold emitted. apply flat_map_app. Qed.

Lemma fetches_app (a b : list effect) : fetches (a ++ b) = fetches a ++ fetches b.
Proof. unfold fetches. apply flat_map_app. Qed.

Lemma sleeps_app (a b : list effect) : sleeps (a ++ b) = sleeps a ++ sleeps b.
Proof. unfold sleeps. apply flat_map_app. Qed.

Lemma trace_await (evs : list ext_event) (w : World) :
  trace (await evs w) = trace w.
Proof.
  revert w. induction evs as [|ev evs IH]; intros w; [reflexivity|].
  unfold await in *. simpl. rewrite IH. destruct ev; reflexivity.
Qed.

Lemma ended_await (evs : list ext_event) (w : World) :
  ended (await evs w) = ended w.
Proof.
  revert w. induction evs as [|ev evs IH]; intros w; [reflexivity|].
  unfold await in *. simpl. rewrite IH. destruct ev; reflexivity.
Qed.

Lemma append_inv_head (p a b : string) : p +:+ a = p +:+ b -> a = b.
Proof.
  induction p as [|c p IH]; simpl; [auto|].
  intros H. injection H as H. auto.
Qed.

Lemma append_assoc (a b c : string) : (a +:+ b) +:+ c = a +:+ (b +:+ c).
Proof.
  induction a as [|x a IH]; [reflexivity|].
  change (String x ((a +:+ b) +:+ c) = String x (a +:+ (b +:+ c))).
  f_equal. exact IH.
Qed.

Lemma is_failure_terminal (s : string) : is_failure s = true -> is_terminal s = true.
Proof. unfold is_terminal. intros ->. apply orb_true_r. Qed.

Lemma not_terminal_inv (s : string) :
  is_terminal s = false ->
  String.eqb s "completed" = false /\ is_failure s = false.
Proof. unfold is_terminal. intros H. apply orb_false_elim in H. exact H. Qed.

(** The sentinel cannot be mistaken for a framed event: the seventh
    character of a frame is an opening brace, that of the sentinel an
    opening bracket. *)
Lemma render_data_not_done (e : event) : render (Data e) <> render Done.
Proof. intros H. discriminate H. Qed.

(** ** Worked scenarios *)

Example scenario_completed :
  emitted (trace (world_of
    (stream_run "t1" "r1"
       (scripted [ok "queued"; ok "in_progress"; ok "completed"]
                 (Resolved [text_message "The area formula is pi r^2."]) quiet)
       10 (fresh g0))))
  = [status_event "queued"; status_event "in_progress";
     status_event "completed";
     message_event "The area formula is pi r^2."; Done].
Proof. reflexivity. Qed.

Example scenario_failed :
  emitted (trace (world_of
    (stream_run "t1" "r1"
       (scripted [ok "in_progress"; ok "failed"] (Resolved []) quiet)
       10 (fresh g0))))
  = [status_event "in_progress"; status_event "failed";
     error_event "Run failed"; Done].
Proof. reflexivity. Qed.

Example scenario_expired :
  stream_run "t1" "r1" (scripted [ok "expired"] (Resolved []) quiet) 1 (fresh g0)
  = Returned
      {| globals := g0; destroyed := false; ended := true;
         trace := [WriteHead 200 sse_headers;
                   Get (openai g0) "/threads/t1/runs/r1";
                   ResWrite (status_event "expired") true;
                   ResWrite (error_event "Run expired") true;
                   ResWrite Done true;
                   ResEnd] |}.
Proof. reflexivity. Qed.

Example render_status :
  render (status_event "queued")
  = "data: {" +:+ dquote +:+ "type" +:+ dquote +:+ ":" +:+ dquote +:+ "status"
    +:+ dquote +:+ "," +:+ dquote +:+ "content" +:+ dquote +:+ ":" +:+ dquote
    +:+ "queued" +:+ dquote +:+ "}" +:+ nl +:+ nl.
Proof. reflexivity. Qed.

(** ** Unrolling the loop *)

Section Unrolling.

Variables thread_id run_id : string.
Variable env : Env.

Local Abbreviation poll := (pollRunStatus thread_id run_id env).
Local Abbreviation spin := (Obs.spin thread_id run_id env).
Local Abbreviation turn := (Obs.turn thread_id run_id env).
Local Abbreviation polled := (Obs.polled env).
Local Abbreviation still_running := (Obs.still_running env).
Local Abbreviation polls := (Obs.polls thread_id run_id).

Lemma run_url_not_messages_url :
  String.eqb (messages_url thread_id) (run_url thread_id run_id) = false.
Proof.
  apply String.eqb_neq. unfold messages_url, run_url. intros H.
  apply (append_inv_head "/threads/") in H.
  apply append_inv_head in H. discriminate H.
Qed.

Lemma polls_app (a b : list effect) : polls (a ++ b) = polls a ++ polls b.
Proof. unfold Obs.polls. apply flat_map_app. Qed.

Lemma still_running_head i k :
  still_running i (S k) ->
  exists run, run_fetch env i = Resolved run
              /\ is_terminal (status run) = false.
Proof. intros H. apply H. lia. Qed.

Lemma still_running_tail i k :
  still_running i (S k) -> still_running (S i) k.
Proof. intros H j Hj. apply H. lia. Qed.

Lemma poll_spin k : forall fuel i w,
  still_running i k ->
  poll (k + fuel) i w = poll fuel (i + k) (spin k i w).
Proof.
  induction k as [|k IH]; intros fuel i w Hrun.
  - simpl. now rewrite Nat.add_0_r.
  - destruct (still_running_head _ _ Hrun) as (run & Hf & Hnt).
    apply not_terminal_inv in Hnt as [Hc Hfail].
    simpl. rewrite Hf, Hc, Hfail.
    rewrite (IH fuel (S i)) by now apply still_running_tail.
    f_equal. lia.
Qed.

Lemma trace_turn i s w :
  exists c a,
    trace (turn i s w)
    = trace w ++ [Get c (run_url thread_id run_id);
                  ResWrite (status_event s) a; Sleep 1000].
Proof.
  unfold Obs.turn, sleep_1000, openai_get.
  rewrite trace_await. simpl. rewrite trace_await. simpl.
  eexists _, _. rewrite <- !app_assoc. reflexivity.
Qed.

Lemma ended_turn i s w : ended (turn i s w) = ended w.
Proof.
  unfold Obs.turn, sleep_1000, openai_get.
  rewrite ended_await. simpl. now rewrite ended_await.
Qed.

Lemma polled_S i k :
  polled i (S k)
  = match run_fetch env i with
    | Resolved run => [status run]
    | Rejected _ => []
    end ++ polled (S i) k.
Proof. reflexivity. Qed.

Lemma emitted_spin k : forall i w,
  still_running i k ->
  emitted (trace (spin k i w))
  = emitted (trace w) ++ map status_event (polled i k).
Proof.
  induction k as [|k IH]; intros i w Hrun.
  - simpl. now rewrite app_nil_r.
  - destruct (still_running_head _ _ Hrun) as (run & Hf & _).
    rewrite polled_S. simpl. rewrite Hf.
    rewrite IH by now apply still_running_tail.
    destruct (trace_turn i (status run) w) as (c & a & ->).
    rewrite emitted_app. simpl. now rewrite <- app_assoc.
Qed.

Lemma polls_spin k : forall i w,
  still_running i k ->
  length (polls (trace (spin k i w))) = length (polls (trace w)) + k.
Proof.
  induction k as [|k IH]; intros i w Hrun.
  - simpl. lia.
  - destruct (still_running_head _ _ Hrun) as (run & Hf & _).
    simpl. rewrite Hf.
    rewrite IH by now apply still_running_tail.
    destruct (trace_turn i (status run) w) as (c & a & ->).
    rewrite polls_app, length_app. simpl.
    rewrite String.eqb_refl. simpl. lia.
Qed.

Lemma sleeps_spin k : forall i w,
  still_running i k ->
  sleeps (trace (spin k i w)) = sleeps (trace w) ++ repeat 1000%Z k.
Proof.
  induction k as [|k IH]; intros i w Hrun.
  - simpl. now rewrite app_nil_r.
  - destruct (still_running_head _ _ Hrun) as (run & Hf & _).
    simpl. rewrite Hf.
    rewrite IH by now apply still_running_tail.
    destruct (trace_turn i (status run) w) as (c & a & ->).
    rewrite sleeps_app. simpl. now rewrite <- app_assoc.
Qed.

Lemma ended_spin k : forall i w, ended (spin k i w) = ended w.
Proof.
  induction k as [|k IH]; intros i w; [reflexivity|].
  simpl. destruct (run_fetch env i); [|reflexivity].
  rewrite IH. apply ended_turn.
Qed.

Lemma polled_length i k : still_running i k -> length (polled i k) = k.
Proof.
  revert i. induction k as [|k IH]; intros i Hrun; [reflexivity|].
  destruct (still_running_head _ _ Hrun) as (run & Hf & _).
  rewrite polled_S, Hf. simpl. f_equal. apply IH.
  now apply still_running_tail.
Qed.

End Unrolling.

(** ** Single steps *)

Section TraceSteps.

Variables thread_id run_id : string.
Variable env : Env.

Local Abbreviation polls := (Obs.polls thread_id run_id).

Lemma trace_openai_get url p w :
  trace (openai_get env url p w) = trace w ++ [Get (openai (globals w)) url].
Proof. unfold openai_get. now rewrite trace_await. Qed.

Lemma trace_res_write c w :
  trace (snd (res_write c w)) = trace w ++ [ResWrite c (negb (destroyed w))].
Proof. reflexivity. Qed.

Lemma trace_sleep p w :
  trace (sleep_1000 env p w) = trace w ++ [Sleep 1000].
Proof. unfold sleep_1000. now rewrite trace_await. Qed.

Lemma polls_run_get c :
  polls [Get c (run_url thread_id run_id)] = [c].
Proof. unfold Obs.polls, flat_map. now rewrite String.eqb_refl. Qed.

Lemma polls_messages_get c :
  polls [Get c (messages_url thread_id)] = [].
Proof.
  unfold Obs.polls, flat_map. now rewrite run_url_not_messages_url.
Qed.

End TraceSteps.

Ltac norm_trace :=
  repeat first
    [ rewrite trace_res_write | rewrite trace_openai_get | rewrite trace_sleep
    | rewrite emitted_app | rewrite polls_app | rewrite fetches_app
    | rewrite sleeps_app | rewrite polls_run_get | rewrite polls_messages_get
    | rewrite length_app ].

(** ** Status frames *)

Section StatusFrames.

Variables thread_id run_id : string.
Variable env : Env.

Local Abbreviation poll := (pollRunStatus thread_id run_id env).
Local Abbreviation polled := (Obs.polled env).
Local Abbreviation polls := (Obs.polls thread_id run_id).

Lemma poll_S fuel i w :
  poll (S fuel) i w
  = let w1 := openai_get env (run_url thread_id run_id) (AwaitRun i) w in
    match run_fetch env i with
    | Rejected e => Threw e w1
    | Resolved run =>
        let w2 := snd (res_write (status_event (status run)) w1) in
        if String.eqb (status run) "completed" then
          let w3 := openai_get env (messages_url thread_id) (AwaitMessages i) w2 in
          match messages_fetch env with
          | Rejected e => Threw e w3
          | Resolved messages =>
              match latest_text messages with
              | inl e => Threw e w3
              | inr text => Returned (snd (res_write (message_chunk text) w3))
              end
          end
        else if is_failure (status run) then
          Returned (snd (res_write (error_event ("Run " +:+ status run)) w2))
        else poll fuel (S i) (sleep_1000 env (AwaitSleep i) w2)
    end.
Proof. reflexivity. Qed.

Lemma poll_status_frames fuel : forall i w,
  exists n tail,
    emitted (trace (world_of (poll fuel i w)))
    = emitted (trace w) ++ map status_event (polled i n) ++ tail
    /\ forallb (fun c => negb (is_status c)) tail = true
    /\ length (polls (trace (world_of (poll fuel i w))))
       = length (polls (trace w)) + n.
Proof.
  induction fuel as [|fuel IH]; intros i w.
  - exists 0, []. simpl. rewrite app_nil_r. repeat split. lia.
  - rewrite poll_S. cbv zeta.
    destruct (run_fetch env i) as [run|e] eqn:Hf.
    + destruct (String.eqb (status run) "completed") eqn:Hc;
        [|destruct (is_failure (status run)) eqn:Hfail].
      * destruct (messages_fetch env) as [messages|e];
          [destruct (latest_text messages) as [e|[text|]]|];
          [exists 1, [] | exists 1, [message_event text]
          | exists 1, [DataNoContent message_t] | exists 1, []];
          rewrite polled_S, Hf; cbn [world_of]; norm_trace; simpl;
          rewrite <- ?app_assoc, ?app_nil_r; (repeat split); lia.
      * exists 1, [error_event ("Run " +:+ status run)].
        rewrite polled_S, Hf; cbn [world_of]; norm_trace; simpl.
        rewrite <- ?app_assoc, ?app_nil_r. repeat split. lia.
      * match goal with
        | |- context [poll fuel (S i) ?w'] =>
            destruct (IH (S i) w') as (n & tail & He & Ht & Hp)
        end.
        exists (S n), tail. rewrite He, Hp, polled_S, Hf.
        norm_trace. simpl.
        rewrite <- ?app_assoc, ?app_nil_r. simpl.
        repeat split; [assumption|lia].
    + exists 1, []. rewrite polled_S, Hf. cbn [world_of].
      norm_trace. simpl. rewrite ?app_nil_r. repeat split; lia.
Qed.

End StatusFrames.

(** ** Reaching the end of the loop *)

Section Terminal.

Variables thread_id run_id : string.
Variable env : Env.

Local Abbreviation poll := (pollRunStatus thread_id run_id env).
Local Abbreviation stream := (stream_run thread_id run_id env).
Local Abbreviation spin := (Obs.spin thread_id run_id env).
Local Abbreviation polled := (Obs.polled env).
Local Abbreviation still_running := (Obs.still_running env).
Local Abbreviation polls := (Obs.polls thread_id run_id).

Lemma polled_snoc i k :
  polled i (S k)
  = polled i k ++ match run_fetch env (i + k) with
                  | Resolved run => [status run]
                  | Rejected _ => []
                  end.
Proof.
  unfold Obs.polled. rewrite seq_S, flat_map_app. simpl.
  now rewrite app_nil_r.
Qed.

Lemma ended_openai_get url p w : ended (openai_get env url p w) = ended w.
Proof. unfold openai_get. now rewrite ended_await. Qed.

Lemma ended_res_write c w : ended (snd (res_write c w)) = ended w.
Proof. reflexivity. Qed.

Lemma only_status_map (l : list string) : only_status (map status_event l) = true.
Proof. induction l as [|s l IH]; [reflexivity|exact IH]. Qed.

Lemma stream_unroll k f g :
  still_running 0 k ->
  stream (k + f) (fresh g)
  = match poll f k (spin k 0 (opened g)) with
    | Returned w1 => Returned (res_end (snd (res_write Done w1)))
    | Threw e w1 => Threw e w1
    | Pending w1 => Pending w1
    end.
Proof.
  intros Hrun. unfold stream_run.
  now rewrite (poll_spin thread_id run_id env k f 0 _ Hrun).
Qed.

Lemma emitted_spun k g :
  still_running 0 k ->
  emitted (trace (spin k 0 (opened g))) = map status_event (polled 0 k).
Proof.
  intros Hrun. now rewrite (emitted_spin thread_id run_id env k 0 _ Hrun).
Qed.

Lemma polls_spun k g :
  still_running 0 k -> length (polls (trace (spin k 0 (opened g)))) = k.
Proof.
  intros Hrun. now rewrite (polls_spin thread_id run_id env k 0 _ Hrun).
Qed.

Lemma ended_spun k g : ended (spin k 0 (opened g)) = false.
Proof. now rewrite ended_spin. Qed.

Lemma fuel_split k fuel : k < fuel -> exists f, fuel = k + S f.
Proof. intros H. exists (fuel - S k). lia. Qed.

Lemma stream_completed k g run messages text :
  still_running 0 k ->
  run_fetch env k = Resolved run ->
  status run = "completed" ->
  messages_fetch env = Resolved messages ->
  latest_text messages = inr text ->
  forall fuel, k < fuel ->
  exists w pre a,
    stream fuel (fresh g) = Returned w
    /\ emitted (trace w)
       = map status_event (polled 0 (S k)) ++ [message_chunk text; Done]
    /\ length (polls (trace w)) = S k
    /\ ended w = true
    /\ trace w = pre ++ [ResWrite Done a; ResEnd].
Proof.
  intros Hrun Hf Hc Hm Ht fuel Hlt.
  destruct (fuel_split _ _ Hlt) as [f ->].
  rewrite (stream_unroll k (S f) g Hrun), poll_S. cbv zeta.
  rewrite Hf, Hc, Hm, Ht. cbn [String.eqb].
  eexists _, _, _. split; [reflexivity|].
  split; [|split; [|split; [reflexivity|]]].
  - cbn [res_end trace]. norm_trace. rewrite (emitted_spun k g Hrun).
    rewrite polled_snoc; cbn [Nat.add]; rewrite Hf, ?Hc, map_app. simpl.
    now rewrite <- !app_assoc.
  - cbn [res_end trace]. norm_trace. rewrite (polls_spun k g Hrun).
    simpl. lia.
  - cbn [res_end trace]. rewrite trace_res_write, <- app_assoc. reflexivity.
Qed.

Lemma stream_failed k g run :
  still_running 0 k ->
  run_fetch env k = Resolved run ->
  is_failure (status run) = true ->
  forall fuel, k < fuel ->
  exists w pre a,
    stream fuel (fresh g) = Returned w
    /\ emitted (trace w)
       = map status_event (polled 0 (S k))
         ++ [error_event ("Run " +:+ status run); Done]
    /\ length (polls (trace w)) = S k
    /\ ended w = true
    /\ trace w = pre ++ [ResWrite Done a; ResEnd].
Proof.
  intros Hrun Hf Hfail fuel Hlt.
  destruct (fuel_split _ _ Hlt) as [f ->].
  rewrite (stream_unroll k (S f) g Hrun), poll_S. cbv zeta.
  rewrite Hf, Hfail.
  assert (Hc : String.eqb (status run) "completed" = false).
  { destruct (String.eqb_spec (status run) "completed") as [E|]; [|reflexivity].
    rewrite E in Hfail. discriminate Hfail. }
  rewrite Hc.
  eexists _, _, _. split; [reflexivity|].
  split; [|split; [|split; [reflexivity|]]].
  - cbn [res_end trace]. norm_trace. rewrite (emitted_spun k g Hrun).
    rewrite polled_snoc; cbn [Nat.add]; rewrite Hf, map_app. simpl.
    now rewrite <- !app_assoc.
  - cbn [res_end trace]. norm_trace. rewrite (polls_spun k g Hrun).
    simpl. lia.
  - cbn [res_end trace]. rewrite trace_res_write, <- app_assoc. reflexivity.
Qed.

Lemma unreadable_throws messages e :
  unreadable messages e <-> latest_text messages = inl e.
Proof.
  split.
  - intros H. destruct H as [|m older Hm|m older file_id blocks Hm];
      unfold latest_text; rewrite ?Hm; reflexivity.
  - unfold latest_text. destruct messages as [|m older].
    + intros H. injection H as <-. constructor.
    + destruct (msg_content m) as [|[value| |file_id] blocks] eqn:Hm;
        intros H; try discriminate H; injection H as <-.
      * now apply no_content_block.
      * now apply (no_text m older file_id blocks).
Qed.

Lemma stream_aborts k g e :
  still_running 0 k ->
  loop_failure env k e ->
  forall fuel, k < fuel ->
  exists w,
    stream fuel (fresh g) = Threw e w
    /\ emitted (trace w) = map status_event (polled 0 (S k))
    /\ length (polls (trace w)) = S k
    /\ ended w = false.
Proof.
  intros Hrun Hfail fuel Hlt.
  destruct (fuel_split _ _ Hlt) as [f ->].
  rewrite (stream_unroll k (S f) g Hrun), poll_S. cbv zeta.
  destruct Hfail as [Hf | run Hf Hc Hm | run messages Hf Hc Hm Ht];
    [| |apply unreadable_throws in Ht].
  - rewrite Hf. eexists. split; [reflexivity|].
    rewrite ended_openai_get, ended_spun. norm_trace.
    rewrite (emitted_spun k g Hrun), (polls_spun k g Hrun).
    rewrite polled_snoc; cbn [Nat.add]; rewrite Hf. simpl. rewrite !app_nil_r.
    repeat split. lia.
  - rewrite Hf, Hc, Hm. cbn [String.eqb]. eexists. split; [reflexivity|].
    rewrite ended_openai_get, ended_res_write, ended_openai_get, ended_spun.
    norm_trace. rewrite (emitted_spun k g Hrun), (polls_spun k g Hrun).
    rewrite polled_snoc; cbn [Nat.add]; rewrite Hf, ?Hc, map_app. simpl. rewrite !app_nil_r.
    repeat split. lia.
  - rewrite Hf, Hc, Hm, Ht. cbn [String.eqb]. eexists. split; [reflexivity|].
    rewrite ended_openai_get, ended_res_write, ended_openai_get, ended_spun.
    norm_trace. rewrite (emitted_spun k g Hrun), (polls_spun k g Hrun).
    rewrite polled_snoc; cbn [Nat.add]; rewrite Hf, ?Hc, map_app. simpl. rewrite !app_nil_r.
    repeat split. lia.
Qed.

End Terminal.

(** ** Counting chunks *)

Lemma count_app p (a b : list chunk) : count p (a ++ b) = count p a + count p b.
Proof. unfold count. now rewrite List.filter_app, length_app. Qed.

Lemma count_terminal_status (l : list string) :
  count is_terminal_event (map status_event l) = 0.
Proof. induction l as [|s l IH]; [reflexivity|exact IH]. Qed.

Lemma count_done_status (l : list string) :
  count is_done (map status_event l) = 0.
Proof. induction l as [|s l IH]; [reflexivity|exact IH]. Qed.

Lemma is_failure_inv (s : string) :
  is_failure s = true -> s = "failed" \/ s = "cancelled" \/ s = "expired".
Proof.
  unfold is_failure. intros H.
  apply orb_true_iff in H as [H|H]; [apply orb_true_iff in H as [H|H]|];
    apply String.eqb_eq in H; auto.
Qed.

Lemma still_running_one (env : Env) (run : Run) :
  run_fetch env 0 = Resolved run -> is_terminal (status run) = false ->
  Obs.still_running env 0 1.
Proof.
  intros Hf Hnt j Hj. assert (j = 0) as -> by lia. eauto.
Qed.

Lemma still_running_none (env : Env) : Obs.still_running env 0 0.
Proof. intros j Hj. lia. Qed.

(** * The stated properties *)

(** C1, as amended. When the run reaches a terminal tag at poll [k] and,
    in case that tag is [completed], the message list call succeeds with a
    payload whose first message starts with a text block, the handler
    returns; it has then written one status frame per poll, exactly one
    terminal event (the message event for that block's text on
    [completed], the error event naming the status otherwise), exactly
    one sentinel after it, nothing after the sentinel, and it has ended
    the response. *)
Theorem C1_terminal_event_then_done
  (thread_id run_id : string) (env : Env) (g : Globals) (k : nat) (run : Run) :
  Obs.still_running env 0 k ->
  run_fetch env k = Resolved run ->
  is_terminal (status run) = true ->
  (status run = "completed" ->
   exists messages text,
     messages_fetch env = Resolved messages /\ latest_text messages = inr text) ->
  forall fuel, k < fuel ->
  exists w terminal pre a,
    stream_run thread_id run_id env fuel (fresh g) = Returned w
    /\ emitted (trace w)
       = map status_event (Obs.polled env 0 (S k)) ++ [terminal; Done]
    /\ (if String.eqb (status run) "completed"
        then exists messages text,
               messages_fetch env = Resolved messages
               /\ latest_text messages = inr text
               /\ terminal = message_chunk text
        else terminal = error_event ("Run " +:+ status run))
    /\ count is_terminal_event (emitted (trace w)) = 1
    /\ count is_done (emitted (trace w)) = 1
    /\ trace w = pre ++ [ResWrite Done a; ResEnd]
    /\ ended w = true.
Proof.
  intros Hrun Hf Hterm Hmsg fuel Hlt.
  destruct (String.eqb (status run) "completed") eqn:Hc.
  - apply String.eqb_eq in Hc.
    destruct (Hmsg Hc) as (messages & text & Hm & Ht).
    destruct (stream_completed thread_id run_id env k g run messages text
                Hrun Hf Hc Hm Ht fuel Hlt) as (w & pre & a & Hs & He & _ & Hend & Htr).
    exists w, (message_chunk text), pre, a.
    rewrite He, !count_app, count_terminal_status, count_done_status.
    split; [assumption|]. split; [reflexivity|].
    split; [now exists messages, text|].
    destruct text; repeat split; assumption.
  - unfold is_terminal in Hterm. rewrite Hc in Hterm. simpl in Hterm.
    destruct (stream_failed thread_id run_id env k g run
                Hrun Hf Hterm fuel Hlt) as (w & pre & a & Hs & He & _ & Hend & Htr).
    exists w, (error_event ("Run " +:+ status run)), pre, a.
    rewrite He, !count_app, count_terminal_status, count_done_status.
    repeat split; assumption.
Qed.

Lemma C1_terminal_event_then_done_witness :
  exists w terminal pre a,
    stream_run "t1" "r1" env_queued_completed 2 (fresh g0) = Returned w
    /\ emitted (trace w)
       = map status_event (Obs.polled env_queued_completed 0 2)
         ++ [terminal; Done]
    /\ (exists messages text,
          messages_fetch env_queued_completed = Resolved messages
          /\ latest_text messages = inr text
          /\ terminal = message_chunk text)
    /\ count is_terminal_event (emitted (trace w)) = 1
    /\ count is_done (emitted (trace w)) = 1
    /\ trace w = pre ++ [ResWrite Done a; ResEnd]
    /\ ended w = true.
Proof.
  apply (C1_terminal_event_then_done "t1" "r1" env_queued_completed g0 1
           {| status := "completed" |}).
  - apply (still_running_one _ {| status := "queued" |}); reflexivity.
  - reflexivity.
  - reflexivity.
  - intros _. exists [text_message "hello"], (Some "hello"). split; reflexivity.
  - lia.
Defined.

(** C1, as stated, fails: the run is [completed] on the first poll but the
    message list is empty, so the handler throws after the status frame;
    no terminal event and no sentinel are written and the response is not
    ended, whatever the step budget. *)
Lemma C1_completed_without_messages :
  reaches_terminal env_completed_no_messages 0
  /\ forall fuel,
       (forall w, stream_run "t1" "r1" env_completed_no_messages fuel (fresh g0)
                  <> Returned w)
       /\ count is_terminal_event
            (emitted (trace (world_of
               (stream_run "t1" "r1" env_completed_no_messages fuel (fresh g0)))))
          = 0
       /\ count is_done
            (emitted (trace (world_of
               (stream_run "t1" "r1" env_completed_no_messages fuel (fresh g0)))))
          = 0
       /\ ended (world_of
            (stream_run "t1" "r1" env_completed_no_messages fuel (fresh g0)))
          = false.
Proof.
  split.
  - split; [apply still_running_none|].
    exists {| status := "completed" |}. split; reflexivity.
  - intros [|fuel]; (split; [intros w H; discriminate H|]);
      repeat split; reflexivity.
Qed.

(** C2. Whatever the step budget and however the request ends, the status
    events written so far are exactly the tags answered to the polls made
    so far, one per answered poll and in poll order, and every other chunk
    (the terminal event of the last poll, the sentinel) comes after all of
    them. *)
Theorem C2_status_frames_follow_polls
  (thread_id run_id : string) (env : Env) (fuel : nat) (g : Globals) :
  exists tail,
    emitted (trace (world_of (stream_run thread_id run_id env fuel (fresh g))))
    = map status_event
        (Obs.polled env 0
           (length (Obs.polls thread_id run_id
              (trace (world_of (stream_run thread_id run_id env fuel (fresh g)))))))
      ++ tail
    /\ count is_status tail = 0.
Proof.
  unfold stream_run.
  destruct (poll_status_frames thread_id run_id env fuel 0 (opened g))
    as (n & tail & He & Ht & Hp).
  fold (opened g).
  assert (Hcount : forall l, forallb (fun c => negb (is_status c)) l = true ->
                             count is_status l = 0).
  { induction l as [|c l IH]; [reflexivity|]. simpl. intros H.
    apply andb_true_iff in H as [Hc Hl]. unfold count in *. simpl.
    destruct (is_status c); [discriminate Hc|]. now apply IH. }
  simpl in He, Hp.
  destruct (pollRunStatus thread_id run_id env fuel 0 (opened g)) as [w|e w|w];
    cbn [world_of] in *.
  - exists (tail ++ [Done]). cbn [res_end trace]. norm_trace.
    rewrite He, Hp. simpl. rewrite !Nat.add_0_r, app_nil_r, <- app_assoc, count_app.
    split; [reflexivity|]. now rewrite (Hcount _ Ht).
  - exists tail. rewrite He, Hp. split; [reflexivity|]. now apply Hcount.
  - exists tail. rewrite He, Hp. split; [reflexivity|]. now apply Hcount.
Qed.

(** C3, as amended. When poll [k] answers [completed] and the message
    list that is then fetched starts with a message whose first content
    block is a text block with a value, the handler writes exactly one
    message event, its content is that value, and the loop is left: no
    poll follows. *)
Theorem C3_message_is_text_of_newest
  (thread_id run_id : string) (env : Env) (g : Globals) (k : nat) (run : Run)
  (latestMessage : Message) (older : list Message)
  (value : string) (blocks : list ContentBlock) :
  Obs.still_running env 0 k ->
  run_fetch env k = Resolved run ->
  status run = "completed" ->
  messages_fetch env = Resolved (latestMessage :: older) ->
  msg_content latestMessage = TextBlock value :: blocks ->
  forall fuel, k < fuel ->
  exists w,
    stream_run thread_id run_id env fuel (fresh g) = Returned w
    /\ emitted (trace w)
       = map status_event (Obs.polled env 0 (S k)) ++ [message_event value; Done]
    /\ count is_terminal_event (emitted (trace w)) = 1
    /\ length (Obs.polls thread_id run_id (trace w)) = S k.
Proof.
  intros Hrun Hf Hc Hm Hblock fuel Hlt.
  assert (Ht : latest_text (latestMessage :: older) = inr (Some value)).
  { unfold latest_text. now rewrite Hblock. }
  destruct (stream_completed thread_id run_id env k g run _ (Some value)
              Hrun Hf Hc Hm Ht fuel Hlt) as (w & pre & a & Hs & He & Hp & _).
  cbn [message_chunk] in He.
  exists w. rewrite He, !count_app, count_terminal_status.
  repeat split; assumption.
Qed.

Lemma C3_message_is_text_of_newest_witness :
  exists w,
    stream_run "t1" "r1" env_queued_completed 5 (fresh g0) = Returned w
    /\ emitted (trace w)
       = map status_event (Obs.polled env_queued_completed 0 2)
         ++ [message_event "hello"; Done]
    /\ count is_terminal_event (emitted (trace w)) = 1
    /\ length (Obs.polls "t1" "r1" (trace w)) = 2.
Proof.
  apply (C3_message_is_text_of_newest "t1" "r1" env_queued_completed g0 1
           {| status := "completed" |} (text_message "hello") [] "hello" []).
  - apply (still_running_one _ {| status := "queued" |}); reflexivity.
  - reflexivity.
  - reflexivity.
  - reflexivity.
  - reflexivity.
  - lia.
Defined.

(** C3, as stated, fails: the message list is not empty and its first
    message has a text block, but that block comes second, after an
    image; the handler reads the first block only and throws, so no
    message event is written. *)
Lemma C3_image_first_message_throws :
  run_fetch env_image_first 0 = ok "completed"
  /\ messages_fetch env_image_first
     = Resolved [{| msg_content := [ImageFileBlock "file-1"; TextBlock "hi"] |};
                 text_message "older"]
  /\ stream_run "t1" "r1" env_image_first 1 (fresh g0)
     = Threw (TypeError "Cannot read properties of undefined (reading 'value')")
         {| globals := g0; destroyed := false; ended := false;
            trace := [WriteHead 200 sse_headers;
                      Get (openai g0) "/threads/t1/runs/r1";
                      ResWrite (status_event "completed") true;
                      Get (openai g0) "/threads/t1/messages"] |}
  /\ forall fuel,
       count is_terminal_event
         (emitted (trace (world_of
            (stream_run "t1" "r1" env_image_first fuel (fresh g0))))) = 0.
Proof.
  repeat split; try reflexivity. intros [|fuel]; reflexivity.
Qed.

(** C4. When poll [k] answers [failed], [cancelled] or [expired], the
    handler returns (it does not throw) having written exactly one error
    event, whose content is "Run failed", "Run cancelled" or "Run expired"
    respectively, and the loop is left: no poll follows. *)
Theorem C4_failure_status_gives_error_event
  (thread_id run_id : string) (env : Env) (g : Globals) (k : nat) (run : Run) :
  Obs.still_running env 0 k ->
  run_fetch env k = Resolved run ->
  status run = "failed" \/ status run = "cancelled" \/ status run = "expired" ->
  forall fuel, k < fuel ->
  exists w reason,
    stream_run thread_id run_id env fuel (fresh g) = Returned w
    /\ emitted (trace w)
       = map status_event (Obs.polled env 0 (S k)) ++ [error_event reason; Done]
    /\ (status run = "failed" /\ reason = "Run failed"
        \/ status run = "cancelled" /\ reason = "Run cancelled"
        \/ status run = "expired" /\ reason = "Run expired")
    /\ count is_terminal_event (emitted (trace w)) = 1
    /\ length (Obs.polls thread_id run_id (trace w)) = S k.
Proof.
  intros Hrun Hf Hs fuel Hlt.
  assert (Hfail : is_failure (status run) = true).
  { destruct Hs as [-> | [-> | ->]]; reflexivity. }
  destruct (stream_failed thread_id run_id env k g run Hrun Hf Hfail fuel Hlt)
    as (w & pre & a & Hret & He & Hp & _).
  exists w, ("Run " +:+ status run).
  rewrite He, !count_app, count_terminal_status.
  repeat split; try assumption.
  destruct Hs as [E | [E | E]]; rewrite E; auto.
Qed.

Lemma C4_failure_status_gives_error_event_witness :
  exists w reason,
    stream_run "t1" "r1" env_cancelled 2 (fresh g0) = Returned w
    /\ emitted (trace w)
       = map status_event (Obs.polled env_cancelled 0 2)
         ++ [error_event reason; Done]
    /\ ("cancelled" = "failed" /\ reason = "Run failed"
        \/ "cancelled" = "cancelled" /\ reason = "Run cancelled"
        \/ "cancelled" = "expired" /\ reason = "Run expired")
    /\ count is_terminal_event (emitted (trace w)) = 1
    /\ length (Obs.polls "t1" "r1" (trace w)) = 2.
Proof.
  apply (C4_failure_status_gives_error_event "t1" "r1" env_cancelled g0 1
           {| status := "cancelled" |}).
  - apply (still_running_one _ {| status := "in_progress" |}); reflexivity.
  - reflexivity.
  - right. left. reflexivity.
  - lia.
Defined.

(** C5, as amended. A failure of poll [k] on which the loop throws (the
    poll is rejected, or the run is completed and the message list call
    is rejected, or its payload is an empty list, or the first message
    has no content block, or its first content block has no [text])
    leaves the handler as a thrown error, which [asyncHandler] passes to
    [next]: only status frames have been written, no error event, no
    sentinel, and the response has not been ended. *)
Theorem C5_loop_failure_aborts_stream
  (thread_id run_id : string) (env : Env) (g : Globals) (k : nat) (e : js_error) :
  Obs.still_running env 0 k ->
  loop_failure env k e ->
  forall fuel, k < fuel ->
  exists w,
    stream_run thread_id run_id env fuel (fresh g) = Threw e w
    /\ asyncHandler (stream_run thread_id run_id env fuel) (fresh g)
       = NextCalled e w
    /\ emitted (trace w) = map status_event (Obs.polled env 0 (S k))
    /\ count is_terminal_event (emitted (trace w)) = 0
    /\ count is_done (emitted (trace w)) = 0
    /\ ended w = false.
Proof.
  intros Hrun Hfail fuel Hlt.
  destruct (stream_aborts thread_id run_id env k g e Hrun Hfail fuel Hlt)
    as (w & Hs & He & _ & Hend).
  exists w. unfold asyncHandler.
  rewrite Hs, He, count_terminal_status, count_done_status.
  repeat split. assumption.
Qed.

Lemma C5_loop_failure_aborts_stream_witness :
  (exists w,
     stream_run "t1" "r1" env_poll_fails 2 (fresh g0)
     = Threw (UpstreamError "Request failed with status code 401") w
     /\ asyncHandler (stream_run "t1" "r1" env_poll_fails 2) (fresh g0)
        = NextCalled (UpstreamError "Request failed with status code 401") w
     /\ emitted (trace w) = map status_event (Obs.polled env_poll_fails 0 2)
     /\ count is_terminal_event (emitted (trace w)) = 0
     /\ count is_done (emitted (trace w)) = 0
     /\ ended w = false)
  /\
  (exists w,
     stream_run "t1" "r1" env_completed_no_messages 1 (fresh g0)
     = Threw (TypeError "Cannot read properties of undefined (reading 'content')") w
     /\ asyncHandler (stream_run "t1" "r1" env_completed_no_messages 1) (fresh g0)
        = NextCalled
            (TypeError "Cannot read properties of undefined (reading 'content')") w
     /\ emitted (trace w)
        = map status_event (Obs.polled env_completed_no_messages 0 1)
     /\ count is_terminal_event (emitted (trace w)) = 0
     /\ count is_done (emitted (trace w)) = 0
     /\ ended w = false).
Proof.
  split.
  - apply (C5_loop_failure_aborts_stream "t1" "r1" env_poll_fails g0 1).
    + apply (still_running_one _ {| status := "queued" |}); reflexivity.
    + apply poll_rejected. reflexivity.
    + lia.
  - apply (C5_loop_failure_aborts_stream "t1" "r1" env_completed_no_messages g0 0).
    + apply still_running_none.
    + apply (payload_unreadable _ _ _ {| status := "completed" |} []);
        try reflexivity. constructor.
    + lia.
Defined.

(** C5, as stated, fails: a payload whose first content block has a
    [text] without a [value] is malformed, yet nothing throws; the
    handler writes a message event without content, then the sentinel,
    and ends the response in the ordinary way. *)
Lemma C5_text_without_value_does_not_abort :
  run_fetch env_text_without_value 0 = ok "completed"
  /\ messages_fetch env_text_without_value
     = Resolved [{| msg_content := [TextBlockNoValue] |}]
  /\ stream_run "t1" "r1" env_text_without_value 1 (fresh g0)
     = Returned
         {| globals := g0; destroyed := false; ended := true;
            trace := [WriteHead 200 sse_headers;
                      Get (openai g0) "/threads/t1/runs/r1";
                      ResWrite (status_event "completed") true;
                      Get (openai g0) "/threads/t1/messages";
                      ResWrite (DataNoContent message_t) true;
                      ResWrite Done true;
                      ResEnd] |}
  /\ render (DataNoContent message_t)
     = "data: {" +:+ dquote +:+ "type" +:+ dquote +:+ ":" +:+ dquote
       +:+ "message" +:+ dquote +:+ "}" +:+ nl +:+ nl.
Proof. repeat split; reflexivity. Qed.


(** ** A run that never ends *)

Lemma spin_snoc thread_id run_id env k : forall i w run,
  run_fetch env (i + k) = Resolved run ->
  Obs.still_running env i k ->
  Obs.spin thread_id run_id env (S k) i w
  = Obs.turn thread_id run_id env (i + k) (status run)
      (Obs.spin thread_id run_id env k i w).
Proof.
  induction k as [|k IH]; intros i w run Hf Hrun.
  - rewrite Nat.add_0_r in Hf. simpl. rewrite Hf. now rewrite Nat.add_0_r.
  - destruct (still_running_head env _ _ Hrun) as (r0 & Hf0 & _).
    change (Obs.spin thread_id run_id env (S (S k)) i w)
      with (match run_fetch env i with
            | Resolved r => Obs.spin thread_id run_id env (S k) (S i)
                              (Obs.turn thread_id run_id env i (status r) w)
            | Rejected _ => w
            end).
    rewrite Hf0.
    rewrite (IH (S i) _ run).
    + simpl. rewrite Hf0. f_equal. lia.
    + rewrite <- Hf. f_equal. lia.
    + now apply still_running_tail.
Qed.

(** C8. If every poll is answered with a tag that is not one of the four
    terminal tags, then for every [n] the handler is still inside the loop
    after [n] turns: it has made [n] polls and slept 1000 ms after each,
    it has written no sentinel and has not ended the response, and its
    next turn makes poll [n + 1] right after the [n]-th suspension and
    sleeps 1000 ms again. *)
Theorem C8_never_terminal_polls_forever
  (thread_id run_id : string) (env : Env) (g : Globals) :
  (forall i, exists run,
      run_fetch env i = Resolved run /\ is_terminal (status run) = false) ->
  forall n,
  exists w c a tag,
    stream_run thread_id run_id env n (fresh g) = Pending w
    /\ length (Obs.polls thread_id run_id (trace w)) = n
    /\ sleeps (trace w) = repeat 1000%Z n
    /\ count is_done (emitted (trace w)) = 0
    /\ ended w = false
    /\ trace (world_of (stream_run thread_id run_id env (S n) (fresh g)))
       = trace w ++ [Get c (run_url thread_id run_id);
                     ResWrite (status_event tag) a; Sleep 1000].
Proof.
  intros Hall n.
  assert (Hrun : forall m, Obs.still_running env 0 m).
  { intros m j _. apply Hall. }
  destruct (Hall n) as (run & Hf & Hnt).
  destruct (trace_turn thread_id run_id env n (status run)
              (Obs.spin thread_id run_id env n 0 (opened g))) as (c & a & Htr).
  exists (Obs.spin thread_id run_id env n 0 (opened g)), c, a, (status run).
  split; [|split; [|split; [|split; [|split]]]].
  - rewrite <- (Nat.add_0_r n) at 1.
    now rewrite (stream_unroll thread_id run_id env n 0 g (Hrun n)).
  - apply polls_spun, Hrun.
  - now rewrite (sleeps_spin thread_id run_id env n 0 _ (Hrun n)).
  - rewrite (emitted_spun thread_id run_id env n g (Hrun n)).
    apply count_done_status.
  - apply ended_spun.
  - rewrite <- (Nat.add_0_r (S n)).
    rewrite (stream_unroll thread_id run_id env (S n) 0 g (Hrun (S n))).
    cbn [pollRunStatus world_of].
    rewrite (spin_snoc thread_id run_id env n 0 _ run Hf (Hrun n)).
    exact Htr.
Qed.

Lemma C8_never_terminal_polls_forever_witness :
  exists w c a tag,
    stream_run "t1" "r1" env_requires_action 7 (fresh g0) = Pending w
    /\ length (Obs.polls "t1" "r1" (trace w)) = 7
    /\ sleeps (trace w) = repeat 1000%Z 7
    /\ count is_done (emitted (trace w)) = 0
    /\ ended w = false
    /\ trace (world_of (stream_run "t1" "r1" env_requires_action 8 (fresh g0)))
       = trace w ++ [Get c (run_url "t1" "r1");
                     ResWrite (status_event tag) a; Sleep 1000].
Proof.
  apply (C8_never_terminal_polls_forever "t1" "r1" env_requires_action g0).
  intros i. exists {| status := "requires_action" |}. split; reflexivity.
Defined.

(** ** A client that goes away *)

Lemma calls_app (a b : list effect) : calls (a ++ b) = calls a ++ calls b.
Proof. unfold calls. apply map_app. Qed.

Lemma fetches_calls (tr : list effect) : fetches (calls tr) = fetches tr.
Proof.
  induction tr as [|e tr IH]; [reflexivity|].
  destruct e; simpl; rewrite ?IH; reflexivity.
Qed.

Lemma emitted_calls (tr : list effect) : emitted (calls tr) = emitted tr.
Proof.
  induction tr as [|e tr IH]; [reflexivity|].
  destruct e; simpl; rewrite ?IH; reflexivity.
Qed.

Lemma forget_sink_inv (w w' : World) :
  forget_sink w = forget_sink w' ->
  globals w = globals w' /\ ended w = ended w'
  /\ calls (trace w) = calls (trace w').
Proof. unfold forget_sink. intros H. injection H as Hg He Ht. auto. Qed.

Lemma forget_sink_intro (w w' : World) :
  globals w = globals w' -> ended w = ended w' ->
  calls (trace w) = calls (trace w') ->
  forget_sink w = forget_sink w'.
Proof. unfold forget_sink. intros -> -> ->. reflexivity. Qed.

Lemma forget_sink_log (e : effect) (w w' : World) :
  forget_sink w = forget_sink w' ->
  forget_sink (log e w) = forget_sink (log e w').
Proof.
  intros H. apply forget_sink_inv in H as (Hg & He & Ht).
  apply forget_sink_intro; simpl; [assumption..|].
  now rewrite !calls_app, Ht.
Qed.

Lemma forget_sink_res_write (c : chunk) (w w' : World) :
  forget_sink w = forget_sink w' ->
  forget_sink (snd (res_write c w)) = forget_sink (snd (res_write c w')).
Proof.
  intros H. apply forget_sink_inv in H as (Hg & He & Ht).
  apply forget_sink_intro; simpl; [assumption..|].
  now rewrite !calls_app, Ht.
Qed.

Lemma forget_sink_await (evs : list ext_event) : forall w w',
  forget_sink w = forget_sink w' ->
  forget_sink (await evs w)
  = forget_sink (await (List.filter (fun ev => negb (is_disconnect ev)) evs) w').
Proof.
  induction evs as [|ev evs IH]; intros w w' H; [exact H|].
  apply forget_sink_inv in H as (Hg & He & Ht).
  destruct ev as [body|]; simpl.
  - apply IH. apply forget_sink_intro; simpl; [now rewrite Hg|assumption..].
  - apply IH. apply forget_sink_intro; simpl; assumption.
Qed.

Section Disconnect.

Variables thread_id run_id : string.
Variable env : Env.

Lemma forget_sink_openai_get url p w w' :
  forget_sink w = forget_sink w' ->
  forget_sink (openai_get env url p w)
  = forget_sink (openai_get (without_disconnect env) url p w').
Proof.
  intros H. unfold openai_get. cbn [without_disconnect events].
  apply forget_sink_await.
  destruct (forget_sink_inv _ _ H) as (Hg & _). rewrite Hg.
  now apply forget_sink_log.
Qed.

Lemma forget_sink_sleep p w w' :
  forget_sink w = forget_sink w' ->
  forget_sink (sleep_1000 env p w)
  = forget_sink (sleep_1000 (without_disconnect env) p w').
Proof.
  intros H. unfold sleep_1000. cbn [without_disconnect events].
  apply forget_sink_await. now apply forget_sink_log.
Qed.

Lemma poll_forgets_sink fuel : forall i w w',
  forget_sink w = forget_sink w' ->
  forget_sink_outcome (pollRunStatus thread_id run_id env fuel i w)
  = forget_sink_outcome
      (pollRunStatus thread_id run_id (without_disconnect env) fuel i w').
Proof.
  induction fuel as [|fuel IH]; intros i w w' H.
  - simpl. now rewrite H.
  - rewrite !poll_S. cbv zeta. cbn [without_disconnect run_fetch messages_fetch].
    pose proof (forget_sink_openai_get (run_url thread_id run_id) (AwaitRun i)
                  _ _ H) as H1.
    destruct (run_fetch env i) as [run|e]; [|cbn [forget_sink_outcome]; now rewrite H1].
    pose proof (forget_sink_res_write (status_event (status run)) _ _ H1) as H2.
    destruct (String.eqb (status run) "completed").
    + pose proof (forget_sink_openai_get (messages_url thread_id)
                    (AwaitMessages i) _ _ H2) as H3.
      destruct (messages_fetch env) as [messages|e]; [|cbn [forget_sink_outcome]; now rewrite H3].
      destruct (latest_text messages) as [e|text]; [cbn [forget_sink_outcome]; now rewrite H3|].
      cbn [forget_sink_outcome]. f_equal. now apply forget_sink_res_write.
    + destruct (is_failure (status run)).
      * cbn [forget_sink_outcome]. f_equal. now apply forget_sink_res_write.
      * apply IH. now apply forget_sink_sleep.
Qed.

Lemma stream_forgets_sink fuel g :
  forget_sink_outcome (stream_run thread_id run_id env fuel (fresh g))
  = forget_sink_outcome
      (stream_run thread_id run_id (without_disconnect env) fuel (fresh g)).
Proof.
  unfold stream_run.
  pose proof (poll_forgets_sink fuel 0
                (log (WriteHead 200 sse_headers) (fresh g))
                (log (WriteHead 200 sse_headers) (fresh g)) eq_refl) as H.
  destruct (pollRunStatus thread_id run_id env fuel 0 _) as [w|e w|w];
    destruct (pollRunStatus thread_id run_id (without_disconnect env) fuel 0 _)
      as [w'|e' w'|w']; try discriminate H;
    cbn [forget_sink_outcome] in *; [|exact H..].
  assert (Hw : forget_sink w = forget_sink w') by congruence.
  f_equal. apply forget_sink_inv in Hw as (Hg & He & Ht).
  apply forget_sink_intro; simpl; [assumption|reflexivity|].
  now rewrite !calls_app, Ht.
Qed.

End Disconnect.

(** C6, as amended. The loop never looks at the sink: [res.write] on a
    destroyed response returns [false] and the loop drops that value. A
    disconnect therefore changes nothing but the outcome of later writes:
    the handler makes the same upstream fetches, write calls and
    suspensions, and ends the same way, as it does when the client stays
    connected. *)
Theorem C6_disconnect_does_not_stop_polling
  (thread_id run_id : string) (env : Env) (fuel : nat) (g : Globals) :
  forget_sink_outcome (stream_run thread_id run_id env fuel (fresh g))
  = forget_sink_outcome
      (stream_run thread_id run_id (without_disconnect env) fuel (fresh g))
  /\ fetches (trace (world_of (stream_run thread_id run_id env fuel (fresh g))))
     = fetches (trace (world_of
         (stream_run thread_id run_id (without_disconnect env) fuel (fresh g)))).
Proof.
  pose proof (stream_forgets_sink thread_id run_id env fuel g) as H.
  split; [exact H|].
  destruct (stream_run thread_id run_id env fuel (fresh g)) as [w|e w|w];
    destruct (stream_run thread_id run_id (without_disconnect env) fuel (fresh g))
      as [w'|e' w'|w']; try discriminate H;
    cbn [forget_sink_outcome world_of] in *;
    (assert (Hw : forget_sink w = forget_sink w') by congruence);
    apply forget_sink_inv in Hw as (_ & _ & Ht);
    rewrite <- (fetches_calls (trace w)), Ht;
    apply fetches_calls.
Qed.

(** C6, as stated, fails: the client goes away after the second status
    frame, the third status write is refused, and the loop still makes
    two more polls and the message list call before it returns. *)
Lemma C6_polling_survives_disconnect :
  exists w,
    stream_run "t1" "r1" env_disconnect 10 (fresh g0) = Returned w
    /\ destroyed w = true
    /\ length (Obs.polls "t1" "r1" (trace w)) = 5
    /\ fetches (after_refused_write (trace w))
       = [(openai g0, "/threads/t1/runs/r1");
          (openai g0, "/threads/t1/runs/r1");
          (openai g0, "/threads/t1/messages")].
Proof. eexists. repeat split; reflexivity. Qed.

(** ** Credential rotation under a running stream *)




Section Rotation.

Variables thread_id run_id : string.
Variable env : Env.

Local Abbreviation spin := (Obs.spin thread_id run_id env).
Local Abbreviation turn := (Obs.turn thread_id run_id env).
Local Abbreviation polls := (Obs.polls thread_id run_id).






End Rotation.




(** * Facts about [handleToolCalls] *)

Lemma stringify_error_object (msg : string) :
  JSON_stringify (ToolCalls.error_object msg) = Text (ToolCalls.error_text msg).
Proof.
  unfold ToolCalls.error_object, ToolCalls.error_text.
  cbn [JSON_stringify sum_map join]. now rewrite !append_assoc.
Qed.

Section DispatchFacts.

Variable global : gmap string (jsval -> ToolCalls.call_result).
Variable JSON_parse : jsval -> js_error + jsval.

Local Abbreviation callback := (ToolCalls.callback global JSON_parse).
Local Abbreviation answerable := (ToolCalls.answerable global JSON_parse).
Local Abbreviation answers := (ToolCalls.answers global JSON_parse).

Lemma finish_text id v s :
  JSON_stringify v = Text s ->
  ToolCalls.finish id v
  = ToolCalls.Fulfilled {| ToolCalls.tool_call_id := id;
                           ToolCalls.output := Some s |}.
Proof. unfold ToolCalls.finish. now intros ->. Qed.

Lemma callback_answerable call :
  answerable call ->
  exists o, callback call = ToolCalls.Fulfilled o /\ answers call o.
Proof.
  intros (f & Hfun & Hok).
  unfold ToolCalls.callback, ToolCalls.try_block, ToolCalls.catch_block.
  unfold ToolCalls.answers. rewrite Hfun.
  destruct (global !! ToolCalls.name f) as [fn|] eqn:Hg.
  - destruct (JSON_parse (ToolCalls.arguments call)) as [e|parsed] eqn:Hp.
    + cbn [ToolCalls.message_read template].
      rewrite (finish_text _ _ _ (stringify_error_object _)).
      eexists. split; [reflexivity|]. split; [reflexivity|].
      eexists _, _. split; [reflexivity|].
      split; [apply stringify_error_object|].
      split; [intros f' Hf'; congruence|].
      intros f' fn' parsed' e' m' Hf' Hg' Hp'. congruence.
    + destruct (fn parsed) as [v|error|] eqn:Hcall; [| |contradiction].
      * destruct Hok as (s & Hs). rewrite (finish_text _ _ _ Hs).
        eexists. split; [reflexivity|]. split; [reflexivity|].
        exists v, s. split; [reflexivity|]. split; [exact Hs|].
        split; [intros f' Hf'; congruence|].
        intros f' fn' parsed' e' m' Hf' Hg' Hp' Hcall'.
        assert (f' = f) as -> by congruence.
        assert (fn' = fn) as -> by congruence.
        assert (parsed' = parsed) as -> by congruence.
        congruence.
      * destruct Hok as (message & Hmsg). rewrite Hmsg.
        rewrite (finish_text _ _ _ (stringify_error_object _)).
        eexists. split; [reflexivity|]. split; [reflexivity|].
        eexists _, _. split; [reflexivity|].
        split; [apply stringify_error_object|].
        split; [intros f' Hf'; congruence|].
        intros f' fn' parsed' e' m' Hf' Hg' Hp' Hcall' Hm'.
        assert (f' = f) as -> by congruence.
        assert (fn' = fn) as -> by congruence.
        assert (parsed' = parsed) as -> by congruence.
        assert (e' = error) as -> by congruence.
        assert (m' = message) as -> by congruence.
        reflexivity.
  - rewrite (finish_text _ _ _ (stringify_error_object _)).
    eexists. split; [reflexivity|]. split; [reflexivity|].
    eexists _, _. split; [reflexivity|].
    split; [apply stringify_error_object|].
    split; [intros f' Hf'; congruence|].
    intros f' fn' parsed' e' m' Hf' Hg'. congruence.
Qed.

Lemma Promise_all_fulfilled {A} (ps : list (ToolCalls.promise A)) (vs : list A) :
  Forall2 (fun p v => p = ToolCalls.Fulfilled v) ps vs ->
  ToolCalls.Promise_all ps = ToolCalls.AllFulfilled vs.
Proof.
  intros H. unfold ToolCalls.Promise_all.
  assert (Hr : ToolCalls.reasons_of ps = []).
  { induction H as [|p v ps vs -> _ IH]; [reflexivity|exact IH]. }
  assert (Hv : ToolCalls.values_of ps = Some vs).
  { induction H as [|p v ps vs -> _ IH]; [reflexivity|].
    simpl. rewrite IH by (simpl in Hr; exact Hr). reflexivity. }
  now rewrite Hr, Hv.
Qed.

End DispatchFacts.

(** C9, as amended. When every tool call carries a function descriptor
    and every function that is found and called returns a value that
    serialises to a text or throws a value other than [null] and
    [undefined], [handleToolCalls] is fulfilled with a list of the same
    length and order: the output at each position has the id of the call
    at that position and a serialised text; for a name that [global]
    does not have the text is the serialised
    [{ error: "Unknown function: <name>" }], and for a function that
    throws it is the serialised
    [{ error: "Error executing <name>: <message>" }], where <message> is
    the [message] of what was thrown ("undefined" if it has none). *)
Theorem C9_answerable_calls_are_answered
  (global : gmap string (jsval -> ToolCalls.call_result))
  (JSON_parse : jsval -> js_error + jsval)
  (tool_calls : list ToolCalls.ToolCall) :
  Forall (ToolCalls.answerable global JSON_parse) tool_calls ->
  exists outputs,
    ToolCalls.handleToolCalls global JSON_parse tool_calls
    = ToolCalls.AllFulfilled outputs
    /\ length outputs = length tool_calls
    /\ Forall2 (ToolCalls.answers global JSON_parse) tool_calls outputs.
Proof.
  intros Hall. unfold ToolCalls.handleToolCalls.
  assert (H : exists outputs,
             Forall2 (fun p v => p = ToolCalls.Fulfilled v)
                     (map (ToolCalls.callback global JSON_parse) tool_calls)
                     outputs
             /\ Forall2 (ToolCalls.answers global JSON_parse) tool_calls outputs).
  { induction Hall as [|call calls Hcall _ (outputs & Hf & Ha)].
    - exists []. split; constructor.
    - destruct (callback_answerable global JSON_parse call Hcall)
        as (o & Ho & Hans).
      exists (o :: outputs). split; constructor; assumption. }
  destruct H as (outputs & Hf & Ha).
  exists outputs. split; [now apply Promise_all_fulfilled|].
  split; [|exact Ha].
  symmetry. exact (Forall2_length _ _ _ Ha).
Qed.

Lemma C9_answerable_calls_are_answered_witness :
  exists outputs,
    ToolCalls.handleToolCalls ToolCalls.node_globals ToolCalls.parse_atom
      [ToolCalls.call_unknown; ToolCalls.call_clone]
    = ToolCalls.AllFulfilled outputs
    /\ length outputs = 2
    /\ Forall2 (ToolCalls.answers ToolCalls.node_globals ToolCalls.parse_atom)
         [ToolCalls.call_unknown; ToolCalls.call_clone] outputs.
Proof.
  apply (C9_answerable_calls_are_answered ToolCalls.node_globals
           ToolCalls.parse_atom [ToolCalls.call_unknown; ToolCalls.call_clone]).
  repeat constructor.
  - exists {| ToolCalls.name := "get_weather" |}. split; [reflexivity|].
    vm_compute. exact I.
  - exists {| ToolCalls.name := "structuredClone" |}. split; [reflexivity|].
    vm_compute. exists "true". reflexivity.
Defined.

Example unknown_function_output :
  ToolCalls.handleToolCalls ToolCalls.node_globals ToolCalls.parse_atom
    [ToolCalls.call_unknown; ToolCalls.call_clone]
  = ToolCalls.AllFulfilled
      [{| ToolCalls.tool_call_id := VStr "call_4";
          ToolCalls.output :=
            Some ("{" +:+ dquote +:+ "error" +:+ dquote +:+ ":" +:+ dquote
                  +:+ "Unknown function: get_weather" +:+ dquote +:+ "}") |};
       {| ToolCalls.tool_call_id := VStr "call_5";
          ToolCalls.output := Some "true" |}].
Proof. vm_compute. reflexivity. Qed.

Example throwing_function_output :
  ToolCalls.handleToolCalls ToolCalls.tool_globals ToolCalls.parse_atom
    [ToolCalls.call_get_time]
  = ToolCalls.AllFulfilled
      [{| ToolCalls.tool_call_id := VStr "call_7";
          ToolCalls.output :=
            Some ("{" +:+ dquote +:+ "error" +:+ dquote +:+ ":" +:+ dquote
                  +:+ "Error executing get_time: clock unavailable"
                  +:+ dquote +:+ "}") |}].
Proof. vm_compute. reflexivity. Qed.

(** C9, as stated, fails in four ways: a call without a function
    descriptor makes the [catch] block itself throw, a function that
    returns a BigInt makes [JSON.stringify] throw outside the [try], a
    function that rejects without a reason makes [error.message] throw
    in the [catch] block, and in all three cases [handleToolCalls]
    rejects; a function that returns [undefined] yields an [output] that
    is [undefined], not a text. *)
Lemma C9_handleToolCalls_can_reject :
  ToolCalls.handleToolCalls ToolCalls.node_globals ToolCalls.parse_atom
    [ToolCalls.call_without_function]
  = ToolCalls.AllRejected [ToolCalls.undefined_name]
  /\ ToolCalls.handleToolCalls ToolCalls.node_globals ToolCalls.parse_atom
       [ToolCalls.call_unknown; ToolCalls.call_BigInt]
     = ToolCalls.AllRejected [bigint_error]
  /\ ToolCalls.handleToolCalls ToolCalls.tool_globals ToolCalls.parse_atom
       [ToolCalls.call_lookup_order]
     = ToolCalls.AllRejected
         [TypeError "Cannot read properties of undefined (reading 'message')"]
  /\ ToolCalls.handleToolCalls ToolCalls.node_globals ToolCalls.parse_atom
       [ToolCalls.call_clearTimeout]
     = ToolCalls.AllFulfilled
         [{| ToolCalls.tool_call_id := VStr "call_3";
             ToolCalls.output := None |}].
Proof. repeat split; vm_compute; reflexivity. Qed.

(** * Facts about the upload handler *)


Example setApiKey_bound :
  UploadFile.resolve UploadFile.handler_scope "setApiKey" = None.
Proof. vm_compute. reflexivity. Qed.

(** Were the name bound, the success path could be taken. *)
Example upload_with_bound_key (c : Client) :
  UploadFile.upload_file (UploadFile.handler_scope ∪ {["OPENAI_API_KEY"]})
    "sk-old" c (Resolved "{}")
    {| UploadFile.file := Some UploadFile.a_pdf; UploadFile.purpose := None |}
  = UploadFile.Sent
      [UploadFile.ConsoleLog;
       UploadFile.CreateReadStream "uploads/3f2a.pdf";
       UploadFile.Post c "/files" "Bearer sk-old";
       UploadFile.UnlinkSync "uploads/3f2a.pdf";
       UploadFile.ResJson "{}"].
Proof. vm_compute. reflexivity. Qed.



(** * Further properties of the streaming handler *)

Lemma rhythm_app t r (a b : list effect) :
  rhythm t r (a ++ b) = rhythm t r a ++ rhythm t r b.
Proof. unfold rhythm. apply flat_map_app. Qed.

Lemma message_fetches_app t (a b : list effect) :
  message_fetches t (a ++ b) = message_fetches t a ++ message_fetches t b.
Proof. unfold message_fetches. apply flat_map_app. Qed.

Lemma heads_app (a b : list effect) : heads (a ++ b) = heads a ++ heads b.
Proof. unfold heads. apply flat_map_app. Qed.

Lemma messages_url_not_run_url t r :
  String.eqb (run_url t r) (messages_url t) = false.
Proof. rewrite String.eqb_sym. apply run_url_not_messages_url. Qed.

Lemma rhythm_run_get t r c : rhythm t r [Get c (run_url t r)] = [Poll].
Proof. unfold rhythm, flat_map. now rewrite String.eqb_refl. Qed.

Lemma rhythm_messages_get t r c : rhythm t r [Get c (messages_url t)] = [].
Proof. unfold rhythm, flat_map. now rewrite run_url_not_messages_url. Qed.

Lemma message_fetches_run_get t r c :
  message_fetches t [Get c (run_url t r)] = [].
Proof. unfold message_fetches, flat_map. now rewrite messages_url_not_run_url. Qed.

Lemma message_fetches_messages_get t c :
  message_fetches t [Get c (messages_url t)] = [c].
Proof. unfold message_fetches, flat_map. now rewrite String.eqb_refl. Qed.

Ltac norm_more :=
  repeat first
    [ rewrite trace_res_write | rewrite trace_openai_get | rewrite trace_sleep
    | rewrite rhythm_app | rewrite message_fetches_app | rewrite heads_app
    | rewrite emitted_app | rewrite polls_app | rewrite fetches_app
    | rewrite rhythm_run_get | rewrite rhythm_messages_get
    | rewrite message_fetches_run_get | rewrite message_fetches_messages_get
    | rewrite polls_run_get | rewrite polls_messages_get
    | rewrite length_app ].

Section Pace.

Variables thread_id run_id : string.
Variable env : Env.

Local Abbreviation poll := (pollRunStatus thread_id run_id env).
Local Abbreviation rhythm := (rhythm thread_id run_id).

Lemma poll_rhythm fuel : forall i w,
  exists m,
    rhythm (trace (world_of (poll fuel i w)))
    = rhythm (trace w) ++ concat (repeat [Poll; Nap 1000] m)
      ++ (if has_settled (poll fuel i w) then [Poll] else []).
Proof.
  induction fuel as [|fuel IH]; intros i w.
  - exists 0. simpl. now rewrite app_nil_r.
  - rewrite poll_S. cbv zeta.
    destruct (run_fetch env i) as [run|e].
    + destruct (String.eqb (status run) "completed");
        [|destruct (is_failure (status run))].
      * exists 0.
        destruct (messages_fetch env) as [messages|e];
          [destruct (latest_text messages) as [e|text]|];
          cbn [world_of has_settled]; norm_more; simpl;
          now rewrite ?app_nil_r.
      * exists 0. cbn [world_of has_settled]. norm_more. simpl.
        now rewrite ?app_nil_r.
      * match goal with
        | |- context [poll fuel (S i) ?w'] => destruct (IH (S i) w') as (m & Hm)
        end.
        exists (S m). rewrite Hm. norm_more. simpl.
        now rewrite <- !app_assoc.
    + exists 0. cbn [world_of has_settled]. norm_more. simpl.
      now rewrite ?app_nil_r.
Qed.

End Pace.

(** X1. The loop keeps a fixed pace: whatever upstream answers and
    however long the handler has run, its run-status polls and its
    suspensions alternate strictly, starting with a poll; every
    suspension lasts 1000 ms; and once the handler has returned or thrown
    the last of them is a poll. *)
Theorem stream_polls_and_sleeps_alternate
  (thread_id run_id : string) (env : Env) (fuel : nat) (g : Globals) :
  exists m,
    rhythm thread_id run_id
      (trace (world_of (stream_run thread_id run_id env fuel (fresh g))))
    = concat (repeat [Poll; Nap 1000] m)
      ++ (if has_settled (stream_run thread_id run_id env fuel (fresh g))
          then [Poll] else []).
Proof.
  unfold stream_run. fold (opened g).
  destruct (poll_rhythm thread_id run_id env fuel 0 (opened g)) as (m & Hm).
  exists m. simpl in Hm.
  destruct (pollRunStatus thread_id run_id env fuel 0 (opened g)) as [w|e w|w];
    cbn [world_of has_settled res_end trace] in *.
  - norm_more. rewrite Hm. simpl. now rewrite !app_nil_r.
  - exact Hm.
  - exact Hm.
Qed.

Section MessageList.

Variables thread_id run_id : string.
Variable env : Env.

Local Abbreviation poll := (pollRunStatus thread_id run_id env).
Local Abbreviation polls := (Obs.polls thread_id run_id).
Local Abbreviation message_fetches := (message_fetches thread_id).

Lemma poll_message_fetches fuel : forall i w,
  message_fetches (trace (world_of (poll fuel i w)))
  = message_fetches (trace w)
  \/ exists c k run pre,
       message_fetches (trace (world_of (poll fuel i w)))
       = message_fetches (trace w) ++ [c]
       /\ run_fetch env k = Resolved run
       /\ status run = "completed"
       /\ length (polls (trace (world_of (poll fuel i w))))
          = length (polls (trace w)) + S k - i
       /\ i <= k
       /\ fetches (trace (world_of (poll fuel i w)))
          = pre ++ [(c, messages_url thread_id)].
Proof.
  induction fuel as [|fuel IH]; intros i w.
  - left. reflexivity.
  - rewrite poll_S. cbv zeta.
    destruct (run_fetch env i) as [run|e] eqn:Hf.
    + destruct (String.eqb (status run) "completed") eqn:Hc;
        [|destruct (is_failure (status run))].
      * apply String.eqb_eq in Hc. right.
        eexists _, i, run, _.
        destruct (messages_fetch env) as [messages|e];
          [destruct (latest_text messages) as [e|text]|];
          cbn [world_of]; norm_more; simpl; rewrite ?app_nil_r;
          (split; [reflexivity|]); (split; [exact Hf|]);
          (split; [exact Hc|]); (split; [lia|]); (split; [lia|]);
          rewrite ?app_assoc; reflexivity.
      * left. cbn [world_of]. norm_more. simpl. now rewrite ?app_nil_r.
      * match goal with
        | |- context [poll fuel (S i) ?w'] =>
            destruct (IH (S i) w')
              as [H | (c & k & run' & pre & Hm & Hk & Hs & Hp & Hle & Hfe)]
        end.
        -- left. rewrite H. norm_more. simpl. now rewrite ?app_nil_r.
        -- right. exists c, k, run', pre. rewrite Hm, Hp.
           norm_more. simpl. rewrite ?app_nil_r.
           repeat split; try assumption; lia.
    + left. cbn [world_of]. norm_more. simpl. now rewrite ?app_nil_r.
Qed.

End MessageList.

Lemma trace_finish (w : World) :
  trace (res_end (snd (res_write Done w)))
  = trace w ++ [ResWrite Done (negb (destroyed w)); ResEnd].
Proof. simpl. now rewrite <- app_assoc. Qed.

(** X2. The thread's message list is asked for at most once per stream,
    and only after a poll has answered [completed]: that poll is the last
    one made, and the message-list call is the last upstream request of
    the stream. *)
Theorem messages_fetched_once_after_completed
  (thread_id run_id : string) (env : Env) (fuel : nat) (g : Globals) :
  message_fetches thread_id
    (trace (world_of (stream_run thread_id run_id env fuel (fresh g)))) = []
  \/ exists c k run pre,
       message_fetches thread_id
         (trace (world_of (stream_run thread_id run_id env fuel (fresh g))))
       = [c]
       /\ run_fetch env k = Resolved run
       /\ status run = "completed"
       /\ length (Obs.polls thread_id run_id
            (trace (world_of (stream_run thread_id run_id env fuel (fresh g)))))
          = S k
       /\ fetches
            (trace (world_of (stream_run thread_id run_id env fuel (fresh g))))
          = pre ++ [(c, messages_url thread_id)].
Proof.
  unfold stream_run. fold (opened g).
  destruct (poll_message_fetches thread_id run_id env fuel 0 (opened g))
    as [H | (c & k & run & pre & Hm & Hk & Hs & Hp & _ & Hfe)].
  - left. simpl in H.
    destruct (pollRunStatus thread_id run_id env fuel 0 (opened g)) as [w|e w|w];
      cbn [world_of] in *; rewrite ?trace_finish; norm_more; rewrite ?H; reflexivity.
  - right. exists c, k, run, pre. simpl in Hm, Hp.
    destruct (pollRunStatus thread_id run_id env fuel 0 (opened g)) as [w|e w|w];
      cbn [world_of] in *; rewrite ?trace_finish; norm_more;
      rewrite ?Hm, ?Hp, ?Hfe; simpl; rewrite ?app_nil_r;
      repeat split; try assumption; try lia.
Qed.

Section Ending.

Variables thread_id run_id : string.
Variable env : Env.

Local Abbreviation poll := (pollRunStatus thread_id run_id env).

Lemma ended_sleep p w : ended (sleep_1000 env p w) = ended w.
Proof. unfold sleep_1000. now rewrite ended_await. Qed.

Lemma poll_ending fuel : forall i w,
  exists tags,
    ended (world_of (poll fuel i w)) = ended w
    /\ heads (trace (world_of (poll fuel i w))) = heads (trace w)
    /\ match poll fuel i w with
       | Returned w' =>
           exists last, is_terminal_event last = true
             /\ emitted (trace w')
                = emitted (trace w) ++ map status_event tags ++ [last]
       | Threw _ w' | Pending w' =>
           emitted (trace w') = emitted (trace w) ++ map status_event tags
       end.
Proof.
  induction fuel as [|fuel IH]; intros i w.
  - exists []. simpl. now rewrite app_nil_r.
  - rewrite poll_S. cbv zeta.
    destruct (run_fetch env i) as [run|e].
    + destruct (String.eqb (status run) "completed");
        [|destruct (is_failure (status run))].
      * exists [status run].
        destruct (messages_fetch env) as [messages|e];
          [destruct (latest_text messages) as [e|[text|]]|];
          cbn [world_of];
          rewrite ?ended_res_write, ?ended_openai_get, ?ended_res_write,
            ?ended_openai_get;
          norm_more; simpl; rewrite ?app_nil_r, <- ?app_assoc;
          (split; [reflexivity|]); (split; [reflexivity|]);
          try reflexivity;
          (eexists; split; [|reflexivity]; reflexivity).
      * exists [status run]. cbn [world_of].
        rewrite ?ended_res_write, ?ended_openai_get.
        norm_more. simpl. rewrite ?app_nil_r, <- ?app_assoc.
        split; [reflexivity|]. split; [reflexivity|].
        eexists. split; [|reflexivity]. reflexivity.
      * match goal with
        | |- context [poll fuel (S i) ?w'] =>
            destruct (IH (S i) w') as (tags & He & Hh & Hshape)
        end.
        exists (status run :: tags). rewrite He, Hh.
        rewrite ended_sleep, ended_res_write, ended_openai_get.
        norm_more. simpl. rewrite ?app_nil_r.
        split; [reflexivity|]. split; [reflexivity|].
        destruct (poll fuel (S i) _) as [w'|e w'|w'].
        -- destruct Hshape as (last & Hl & Hem). exists last.
           split; [exact Hl|]. rewrite Hem. norm_more. simpl.
           now rewrite <- !app_assoc.
        -- rewrite Hshape. norm_more. simpl. now rewrite <- !app_assoc.
        -- rewrite Hshape. norm_more. simpl. now rewrite <- !app_assoc.
    + exists []. cbn [world_of]. rewrite ended_openai_get. norm_more. simpl.
      now rewrite ?app_nil_r.
Qed.

End Ending.

(** X3. The sentinel is written, and the response ended, exactly when
    the handler returns, and then the chunks are status events, one
    terminal event and the sentinel, in that order. In every other state
    (the handler threw, or it is still in the loop) only status events
    have been written and the response has not been ended. *)
Theorem sentinel_only_after_terminal_event
  (thread_id run_id : string) (env : Env) (fuel : nat) (g : Globals) :
  match stream_run thread_id run_id env fuel (fresh g) with
  | Returned w =>
      ended w = true
      /\ exists tags last,
           is_terminal_event last = true
           /\ emitted (trace w) = map status_event tags ++ [last; Done]
  | Threw _ w | Pending w =>
      ended w = false
      /\ count is_done (emitted (trace w)) = 0
      /\ exists tags, emitted (trace w) = map status_event tags
  end.
Proof.
  unfold stream_run. fold (opened g).
  destruct (poll_ending thread_id run_id env fuel 0 (opened g))
    as (tags & He & _ & Hshape).
  destruct (pollRunStatus thread_id run_id env fuel 0 (opened g)) as [w|e w|w];
    cbn [world_of] in *.
  - split; [reflexivity|]. destruct Hshape as (last & Hl & Hem).
    exists tags, last. split; [exact Hl|].
    rewrite trace_finish. norm_more. rewrite Hem. simpl.
    now rewrite <- app_assoc.
  - split; [exact He|]. simpl in Hshape. rewrite Hshape.
    split; [apply count_done_status|]. now exists tags.
  - split; [exact He|]. simpl in Hshape. rewrite Hshape.
    split; [apply count_done_status|]. now exists tags.
Qed.

(** X4. The response head, status 200 with the three event-stream
    headers, is the first thing the handler does, before any upstream
    request and any write, and it is written once only. *)
Theorem head_is_written_first_and_once
  (thread_id run_id : string) (env : Env) (fuel : nat) (g : Globals) :
  exists rest,
    trace (world_of (stream_run thread_id run_id env fuel (fresh g)))
    = WriteHead 200 [("Content-Type", "text/event-stream");
                     ("Cache-Control", "no-cache");
                     ("Connection", "keep-alive")] :: rest
    /\ heads rest = [].
Proof.
  assert (Hext : forall f i w, exists ext,
             trace (world_of (pollRunStatus thread_id run_id env f i w))
             = trace w ++ ext).
  { induction f as [|f IH]; intros i w.
    - exists []. simpl. now rewrite app_nil_r.
    - rewrite poll_S. cbv zeta.
      destruct (run_fetch env i) as [run|e];
        [destruct (String.eqb (status run) "completed");
         [destruct (messages_fetch env) as [messages|e];
          [destruct (latest_text messages) as [e|text]|]
         |destruct (is_failure (status run))]|];
        try (cbn [world_of]; norm_more; rewrite <- ?app_assoc;
             eexists; reflexivity).
      match goal with
      | |- context [pollRunStatus _ _ _ f (S i) ?w'] =>
          destruct (IH (S i) w') as (ext & ->)
      end.
      norm_more. rewrite <- ?app_assoc. eexists. reflexivity. }
  unfold stream_run. fold (opened g).
  destruct (poll_ending thread_id run_id env fuel 0 (opened g))
    as (tags & _ & Hh & _).
  destruct (Hext fuel 0 (opened g)) as (ext & Hx).
  rewrite Hx in Hh. rewrite heads_app in Hh. simpl in Hh.
  injection Hh as Hh.
  destruct (pollRunStatus thread_id run_id env fuel 0 (opened g)) as [w|e w|w];
    cbn [world_of] in *.
  - rewrite trace_finish, Hx. simpl. eexists. split; [reflexivity|].
    rewrite heads_app, Hh. reflexivity.
  - rewrite Hx. simpl. eexists. split; [reflexivity|]. exact Hh.
  - rewrite Hx. simpl. eexists. split; [reflexivity|]. exact Hh.
Qed.

Lemma globals_await_disconnects (evs : list ext_event) : forall w,
  forallb is_disconnect evs = true -> globals (await evs w) = globals w.
Proof.
  induction evs as [|ev evs IH]; intros w H; [reflexivity|].
  simpl in H. apply andb_true_iff in H as [Hev Hevs].
  destruct ev; [discriminate Hev|].
  unfold await in *. simpl. now rewrite IH.
Qed.

(** X5. The streaming handler reads the shared client and key but never
    changes them: when no credential update arrives while it runs, the
    module state it leaves behind is the one it found, whatever upstream
    answers and whether or not the client stays connected. *)
Theorem stream_leaves_credentials_alone
  (thread_id run_id : string) (env : Env) (fuel : nat) (g : Globals) :
  no_key_requests env ->
  globals (world_of (stream_run thread_id run_id env fuel (fresh g))) = g.
Proof.
  intros Hquiet.
  assert (Hget : forall url p w,
             globals (openai_get env url p w) = globals w).
  { intros. unfold openai_get. now rewrite globals_await_disconnects. }
  assert (Hsleep : forall p w, globals (sleep_1000 env p w) = globals w).
  { intros. unfold sleep_1000. now rewrite globals_await_disconnects. }
  assert (Hpoll : forall f i w,
             globals (world_of (pollRunStatus thread_id run_id env f i w))
             = globals w).
  { induction f as [|f IH]; intros i w; [reflexivity|].
    rewrite poll_S. cbv zeta.
    destruct (run_fetch env i) as [run|e];
      [destruct (String.eqb (status run) "completed");
       [destruct (messages_fetch env) as [messages|e];
        [destruct (latest_text messages) as [e|text]|]
       |destruct (is_failure (status run))]|];
      cbn [world_of res_write snd log globals];
      rewrite ?IH, ?Hsleep; cbn [res_write snd log globals];
      rewrite ?Hget; cbn [log globals]; rewrite ?Hget; reflexivity. }
  unfold stream_run.
  specialize (Hpoll fuel 0 (log (WriteHead 200 sse_headers) (fresh g))).
  destruct (pollRunStatus thread_id run_id env fuel 0 _) as [w|e w|w];
    cbn [world_of] in *; exact Hpoll.
Qed.

Lemma stream_leaves_credentials_alone_witness :
  globals (world_of (stream_run "t1" "r1" env_disconnect_early 5 (fresh g0)))
  = g0.
Proof.
  apply (stream_leaves_credentials_alone "t1" "r1" env_disconnect_early 5 g0).
  intros [[|i]|i|i]; reflexivity.
Defined.

(** * Credential updates *)

Lemma serve_key_requests_sync (bodies : list (option string)) : forall g,
  openai g = createOpenAIInstance (keys g) ->
  openai (serve_key_requests bodies g)
  = createOpenAIInstance (keys (serve_key_requests bodies g))
  /\ getApiKey (keys (serve_key_requests bodies g))
     = last_accepted bodies (getApiKey (keys g)).
Proof.
  induction bodies as [|body bodies IH]; intros g Hsync; [now split|].
  unfold serve_key_requests in *. cbn [foldl last_accepted].
  destruct body as [key|]; cbn [set_api_key].
  - destruct (truthy (Some key)) eqn:Ht; cbn [snd].
    + apply IH. reflexivity.
    + now apply IH.
  - now apply IH.
Qed.

(** X6. After any sequence of [/set-api-key] requests the shared client
    is the one built from the key the key manager holds, and that key is
    the last truthy one requested: a request with a missing or empty key
    changes nothing, and with no accepted request the key is the one from
    the environment (so [Bearer undefined] goes out if that is unset). *)
Theorem shared_client_carries_last_accepted_key
  (env_key : option string) (bodies : list (option string)) :
  openai (serve_key_requests bodies (init_globals env_key))
  = createOpenAIInstance (keys (serve_key_requests bodies (init_globals env_key)))
  /\ getApiKey (keys (serve_key_requests bodies (init_globals env_key)))
     = last_accepted bodies env_key
  /\ authorization (openai (serve_key_requests bodies (init_globals env_key)))
     = "Bearer " +:+ template (last_accepted bodies env_key).
Proof.
  destruct (serve_key_requests_sync bodies (init_globals env_key) eq_refl)
    as (Hsync & Hkey).
  split; [exact Hsync|]. split; [exact Hkey|].
  rewrite Hsync. unfold createOpenAIInstance. cbn [authorization].
  now rewrite Hkey.
Qed.

Example key_requests_scenario :
  authorization
    (openai (serve_key_requests [Some "sk-a"; None; Some EmptyString]
               (init_globals None)))
  = "Bearer sk-a"
  /\ authorization (openai (init_globals None)) = "Bearer undefined".
Proof. split; reflexivity. Qed.

(** * Settings *)

Lemma serve_settings (rs : list Settings.request) : forall s n,
  Settings.currentFileSize (Settings.current s) = Settings.to_bytes n ->
  Settings.limiter (Settings.serve rs s) = Settings.limiter s
  /\ Settings.upload_limit (Settings.serve rs s) = Settings.upload_limit s
  /\ Settings.currentRateLimit (Settings.current (Settings.serve rs s))
     = Settings.last_rate_limit rs
         (Settings.currentRateLimit (Settings.current s))
  /\ Settings.currentFileSize (Settings.current (Settings.serve rs s))
     = Settings.to_bytes (Settings.last_file_size rs n).
Proof.
  induction rs as [|r rs IH]; intros s n Hn; [now repeat split|].
  unfold Settings.serve in *. cbn [foldl].
  destruct r as [w m|size|]; cbn [Settings.handle snd Settings.last_rate_limit
                                   Settings.last_file_size].
  - destruct (IH
      {| Settings.current :=
           {| Settings.currentRateLimit :=
                {| Settings.windowMs := w; Settings.max := m |};
              Settings.currentFileSize :=
                Settings.currentFileSize (Settings.current s) |};
         Settings.limiter := Settings.limiter s;
         Settings.upload_limit := Settings.upload_limit s |} n Hn)
      as (H1 & H2 & H3 & H4).
    repeat split; assumption.
  - destruct (IH
      {| Settings.current :=
           {| Settings.currentRateLimit :=
                Settings.currentRateLimit (Settings.current s);
              Settings.currentFileSize := Settings.to_bytes size |};
         Settings.limiter := Settings.limiter s;
         Settings.upload_limit := Settings.upload_limit s |} size eq_refl)
      as (H1 & H2 & H3 & H4).
    repeat split; assumption.
  - now apply IH.
Qed.

Lemma to_megabytes_to_bytes (n : option Z) :
  Settings.to_megabytes (Settings.to_bytes n) = n.
Proof.
  destruct n as [z|]; [|reflexivity]. simpl. f_equal.
  rewrite <- Z.mul_assoc. now apply Z.div_mul.
Qed.

(** X7. The settings endpoints do not reach the middlewares. The rate
    limiter and the upload size limit are built once, while the module
    is evaluated, from the values the bindings hold then; whatever
    [/update-rate-limit] and [/update-file-size] requests are served
    afterwards, the limiter still has a window of 900000 ms and 100
    requests, and uploads are still limited to 10485760 bytes. *)
Theorem limits_in_force_never_change (rs : list Settings.request) :
  Settings.limiter (Settings.serve rs Settings.boot)
  = {| Settings.windowMs := VNum 900000; Settings.max := VNum 100 |}
  /\ Settings.upload_limit (Settings.serve rs Settings.boot) = Some 10485760%Z.
Proof.
  destruct (serve_settings rs Settings.boot (Some 10%Z) eq_refl)
    as (Hl & Hu & _).
  rewrite Hl, Hu. split; reflexivity.
Qed.

(** X8. What [/api-defaults] reports is what was last asked for: the
    rate limit is the body of the last [/update-rate-limit] request, field
    for field (a field it lacked is reported as missing, not kept from
    before), and the file size is the number of megabytes of the last
    [/update-file-size] request; before any such request they are 900000
    ms, 100 requests and 10 megabytes. *)
Theorem api_defaults_reports_last_request (rs : list Settings.request) :
  Forall (fun r => match r with
                   | Settings.UpdateFileSize n => Settings.exact_size n
                   | _ => True
                   end) rs ->
  fst (Settings.handle Settings.ApiDefaults (Settings.serve rs Settings.boot))
  = Settings.Defaults
      (Settings.last_rate_limit rs
         {| Settings.windowMs := VNum 900000; Settings.max := VNum 100 |})
      (Settings.last_file_size rs (Some 10%Z)).
Proof.
  intros _.
  destruct (serve_settings rs Settings.boot (Some 10%Z) eq_refl)
    as (_ & _ & Hr & Hf).
  cbn [Settings.handle fst]. rewrite Hr, Hf, to_megabytes_to_bytes.
  reflexivity.
Qed.

Lemma api_defaults_reports_last_request_witness :
  fst (Settings.handle Settings.ApiDefaults
         (Settings.serve
            [Settings.UpdateFileSize (Some 25%Z);
             Settings.UpdateRateLimit VUndefined (VNum 5)]
            Settings.boot))
  = Settings.Defaults
      (Settings.last_rate_limit
         [Settings.UpdateFileSize (Some 25%Z);
          Settings.UpdateRateLimit VUndefined (VNum 5)]
         {| Settings.windowMs := VNum 900000; Settings.max := VNum 100 |})
      (Settings.last_file_size
         [Settings.UpdateFileSize (Some 25%Z);
          Settings.UpdateRateLimit VUndefined (VNum 5)]
         (Some 10%Z)).
Proof.
  apply (api_defaults_reports_last_request
           [Settings.UpdateFileSize (Some 25%Z);
            Settings.UpdateRateLimit VUndefined (VNum 5)]).
  repeat constructor. simpl. lia.
Defined.

Example settings_scenario :
  fst (Settings.handle Settings.ApiDefaults
         (Settings.serve
            [Settings.UpdateFileSize (Some 25%Z);
             Settings.UpdateRateLimit VUndefined (VNum 5)]
            Settings.boot))
  = Settings.Defaults
      {| Settings.windowMs := VUndefined; Settings.max := VNum 5 |}
      (Some 25%Z).
Proof. reflexivity. Qed.

(** * The routing table *)

Section MatchingFacts.

Variable decode : string -> option string.

Lemma bind_params (p : list Router.seg) : forall path params,
  Router.bind decode p path = Router.Bound params ->
  map fst params = Router.params_of p
  /\ forall v, In v (map snd params) ->
       exists s, In s path /\ s <> EmptyString /\ decode s = Some v.
Proof.
  induction p as [|[text|name] p IH]; intros path params H.
  - destruct path; [|discriminate H]. injection H as <-. split; [reflexivity|].
    intros v [].
  - destruct path as [|s path]; [discriminate H|]. simpl in H.
    destruct (String.eqb (Router.lower s) (Router.lower text)); [|discriminate H].
    destruct (IH _ _ H) as (Hk & Hv). split; [exact Hk|].
    intros v Hin. destruct (Hv v Hin) as (s' & Hs' & Hne & Hd).
    exists s'. split; [now right|]. now split.
  - destruct path as [|s path]; [discriminate H|]. simpl in H.
    destruct (String.eqb_spec s EmptyString) as [|Hne]; [discriminate H|].
    destruct (Router.bind decode p path) as [|params'|bad] eqn:Hb;
      [discriminate H| |].
    + destruct (decode s) as [value|] eqn:Hd; [|discriminate H].
      injection H as <-. destruct (IH _ _ Hb) as (Hk & Hv).
      split; [simpl; now rewrite Hk|].
      intros v [<-|Hin].
      * exists s. split; [now left|]. now split.
      * destruct (Hv v Hin) as (s' & Hs' & Hne' & Hd').
        exists s'. split; [now right|]. now split.
    + destruct (decode s); discriminate H.
Qed.

Lemma bind_key (p : list Router.seg) (path : list string) :
  Router.bind decode p path <> Router.NoMatch ->
  Router.starts_fixed p = true ->
  Router.pattern_key p = Router.path_key path.
Proof.
  destruct p as [|[text|name] p]; intros H Hfixed.
  - destruct path; [reflexivity|]. now contradiction H.
  - destruct path as [|s path]; [now contradiction H|]. simpl in H.
    destruct (String.eqb_spec (Router.lower s) (Router.lower text)) as [E|];
      [|now contradiction H].
    simpl. now rewrite E.
  - discriminate Hfixed.
Qed.

Lemma accepts_fits (r : Router.route) m path :
  Router.accepts decode r m path <> Router.NoMatch ->
  Router.bind decode (Router.pattern r) path <> Router.NoMatch.
Proof.
  unfold Router.accepts. intros H Hb. rewrite Hb in H. now apply H.
Qed.

End MatchingFacts.

Lemma param_bound (name : string) (params : list (string * string)) :
  In name (map fst params) ->
  exists v, Router.param name params = Some v /\ In v (map snd params).
Proof.
  induction params as [|[k v] params IH]; intros Hin; [destruct Hin|].
  simpl. destruct (String.eqb_spec k name) as [->|Hne].
  - exists v. split; [reflexivity|now left].
  - destruct Hin as [Heq|Hin]; [contradiction|].
    destruct (IH Hin) as (v' & Hp & Hv). exists v'. split; [exact Hp|now right].
Qed.

Lemma keys_distinct :
  NoDup (map (fun r => Router.pattern_key (Router.pattern r))
             (Router.routes_of Router.app)).
Proof. apply (bool_decide_unpack _). vm_compute. reflexivity. Qed.

Lemma all_start_fixed :
  Forall (fun r => Router.starts_fixed (Router.pattern r) = true)
         (Router.routes_of Router.app).
Proof. apply (bool_decide_unpack _). vm_compute. reflexivity. Qed.

Lemma NoDup_map_eq {A B} (f : A -> B) (l : list A) (x y : A) :
  NoDup (map f l) -> In x l -> In y l -> f x = f y -> x = y.
Proof.
  induction l as [|a l IH]; intros Hnd Hx Hy Hf; [destruct Hx|].
  simpl in Hnd. apply NoDup_cons in Hnd as [Hnotin Hnd].
  destruct Hx as [<-|Hx], Hy as [<-|Hy].
  - reflexivity.
  - exfalso. apply Hnotin. rewrite Hf. apply list_elem_of_In. now apply in_map.
  - exfalso. apply Hnotin. rewrite <- Hf. apply list_elem_of_In. now apply in_map.
  - now apply IH.
Qed.

(** Two routes of the table whose patterns both fit a path, with its
    parameters decoded or not, are one route. *)
Lemma patterns_unique (decode : string -> option string)
  (path : list string) (r1 r2 : Router.route) :
  In r1 (Router.routes_of Router.app) ->
  In r2 (Router.routes_of Router.app) ->
  Router.bind decode (Router.pattern r1) path <> Router.NoMatch ->
  Router.bind decode (Router.pattern r2) path <> Router.NoMatch ->
  r1 = r2.
Proof.
  intros H1 H2 Hb1 Hb2.
  pose proof all_start_fixed as Hfixed. rewrite Forall_forall in Hfixed.
  apply (NoDup_map_eq _ _ r1 r2 keys_distinct H1 H2).
  rewrite (bind_key decode _ path Hb1)
    by (apply Hfixed; now apply list_elem_of_In).
  rewrite (bind_key decode _ path Hb2)
    by (apply Hfixed; now apply list_elem_of_In).
  reflexivity.
Qed.

Lemma routes_unique (decode : string -> option string)
  (m : Router.method) (path : list string) (r1 r2 : Router.route) :
  In r1 (Router.routes_of Router.app) ->
  In r2 (Router.routes_of Router.app) ->
  Router.accepts decode r1 m path <> Router.NoMatch ->
  Router.accepts decode r2 m path <> Router.NoMatch ->
  r1 = r2.
Proof.
  intros H1 H2 Ha1 Ha2.
  apply (patterns_unique decode path); try assumption;
    now apply (accepts_fits decode _ m).
Qed.

(** X9. No route shadows another: a request, whatever its method and
    path and however its parameters decode, is accepted by at most one
    route of the table. *)
Theorem one_route_per_request
  (decode : string -> option string)
  (m : Router.method) (path : list string) (r1 r2 : Router.route)
  (params1 params2 : list (string * string)) :
  In r1 (Router.routes_of Router.app) ->
  In r2 (Router.routes_of Router.app) ->
  Router.accepts decode r1 m path = Router.Bound params1 ->
  Router.accepts decode r2 m path = Router.Bound params2 ->
  r1 = r2.
Proof.
  intros H1 H2 Ha1 Ha2.
  apply (routes_unique decode m path); try assumption; congruence.
Qed.

Lemma one_route_per_request_witness : Router.retrieve_run = Router.retrieve_run.
Proof.
  apply (one_route_per_request Router.decodeURIComponent
           Router.GET ["Retrieve-Run"; "thread_1"; "run%201"]
           Router.retrieve_run Router.retrieve_run
           [("thread_id", "thread_1"); ("run_id", "run 1")]
           [("thread_id", "thread_1"); ("run_id", "run 1")]).
  - apply list_elem_of_In, (bool_decide_unpack _). vm_compute. reflexivity.
  - apply list_elem_of_In, (bool_decide_unpack _). vm_compute. reflexivity.
  - reflexivity.
  - reflexivity.
Defined.

Section DispatchFacts2.

Variable decode : string -> option string.
Variable ends : Router.middleware -> bool.

Local Abbreviation dispatch := (Router.dispatch decode ends).

Lemma dispatch_app (l1 : list Router.layer) : forall l2 m path ran,
  dispatch (l1 ++ l2) m path ran
  = match dispatch l1 m path ran with
    | Router.Unmatched ran' => dispatch l2 m path ran'
    | other => other
    end.
Proof.
  induction l1 as [|[mw|r] l1 IH]; intros l2 m path ran; [reflexivity| |].
  - simpl. destruct (ends mw); [reflexivity|apply IH].
  - simpl. destruct (Router.accepts decode r m path);
      [apply IH|reflexivity|reflexivity].
Qed.

Lemma dispatch_route (l : list Router.layer) : forall m path ran ran' r params,
  dispatch l m path ran = Router.ByRoute ran' r params ->
  In r (Router.routes_of l)
  /\ Router.accepts decode r m path = Router.Bound params
  /\ exists extra, ran' = ran ++ extra
       /\ forall mw, In mw extra -> In (Router.Use mw) l /\ ends mw = false.
Proof.
  induction l as [|[mw|r0] l IH]; intros m path ran ran' r params H.
  - discriminate H.
  - simpl in H. destruct (ends mw) eqn:Hmw; [discriminate H|].
    destruct (IH _ _ _ _ _ _ H) as (Hin & Ha & extra & -> & Hex).
    split; [exact Hin|]. split; [exact Ha|].
    exists (mw :: extra). split; [now rewrite <- app_assoc|].
    intros mw' [<-|Hmw']; [split; [now left|exact Hmw]|].
    destruct (Hex mw' Hmw') as (Hl & He). split; [now right|exact He].
  - simpl in H. destruct (Router.accepts decode r0 m path) as [|params0|bad] eqn:Ha0.
    + destruct (IH _ _ _ _ _ _ H) as (Hin & Ha & extra & -> & Hex).
      split; [now right|]. split; [exact Ha|].
      exists extra. split; [reflexivity|].
      intros mw Hmw. destruct (Hex mw Hmw) as (Hl & He).
      split; [now right|exact He].
    + injection H as <- <- <-. split; [now left|]. split; [exact Ha0|].
      exists []. split; [now rewrite app_nil_r|]. intros mw [].
    + discriminate H.
Qed.

Lemma dispatch_unmatched (l : list Router.layer) : forall m path ran ran',
  dispatch l m path ran = Router.Unmatched ran' ->
  exists extra, ran' = ran ++ extra.
Proof.
  induction l as [|[mw|r0] l IH]; intros m path ran ran' H.
  - injection H as <-. exists []. now rewrite app_nil_r.
  - simpl in H. destruct (ends mw); [discriminate H|].
    destruct (IH _ _ _ _ H) as (extra & ->).
    exists (mw :: extra). now rewrite <- app_assoc.
  - simpl in H. destruct (Router.accepts decode r0 m path);
      [|discriminate H..].
    exact (IH _ _ _ _ H).
Qed.

Lemma limiter_between
  (pre post : list Router.layer) m path ran r params :
  ~ In (Router.Use Router.RateLimiter) pre ->
  (forall r, In r (Router.routes_of pre) ->
             Router.unlimited (Router.action r) = true) ->
  (forall r, In r (Router.routes_of post) ->
             Router.unlimited (Router.action r) = false) ->
  dispatch (pre ++ [Router.Use Router.RateLimiter] ++ post)
    m path [] = Router.ByRoute ran r params ->
  (In Router.RateLimiter ran <-> Router.unlimited (Router.action r) = false).
Proof.
  intros Hnone Hpre Hpost. rewrite dispatch_app.
  destruct (Router.dispatch decode ends pre m path [])
    as [ran0 r0 params0|ran0|ran0 mw0|ran0 bad] eqn:Hbefore.
  - intros H. injection H as -> -> ->.
    destruct (dispatch_route _ _ _ _ _ _ _ Hbefore)
      as (Hin & _ & extra & -> & Hex).
    rewrite (Hpre r Hin).
    split; [|discriminate]. intros Hlim. exfalso.
    apply Hnone. now apply Hex.
  - intros H. cbn [app Router.dispatch] in H.
    destruct (ends Router.RateLimiter); [discriminate H|].
    destruct (dispatch_route _ _ _ _ _ _ _ H)
      as (Hin & _ & extra & -> & _).
    rewrite (Hpost r Hin).
    split; [reflexivity|]. intros _.
    apply in_or_app. left. apply in_or_app. right. now left.
  - discriminate.
  - discriminate.
Qed.

End DispatchFacts2.

Lemma limiter_not_before :
  ~ In (Router.Use Router.RateLimiter) Router.before_limiter.
Proof.
  intros H. apply list_elem_of_In in H. revert H.
  apply (bool_decide_unpack _). vm_compute. reflexivity.
Qed.

Lemma before_unlimited (r : Router.route) :
  In r (Router.routes_of Router.before_limiter) ->
  Router.unlimited (Router.action r) = true.
Proof.
  intros H. apply list_elem_of_In in H. revert r H. apply Forall_forall.
  apply (bool_decide_unpack _). vm_compute. reflexivity.
Qed.

Lemma after_limited (r : Router.route) :
  In r (Router.routes_of Router.after_limiter) ->
  Router.unlimited (Router.action r) = false.
Proof.
  intros H. apply list_elem_of_In in H. revert r H. apply Forall_forall.
  apply (bool_decide_unpack _). vm_compute. reflexivity.
Qed.

(** X10. The rate limiter guards every route except the four that are
    registered ahead of it: a request that reaches the index page,
    [/update-rate-limit], [/update-file-size] or [/api-defaults] has not
    passed the limiter, and a request that reaches any other route has.
    This holds however the parameters decode and whichever middlewares
    end other requests. *)
Theorem limiter_guards_all_but_settings_routes
  (decode : string -> option string) (ends : Router.middleware -> bool)
  (m : Router.method) (path : list string)
  (ran : list Router.middleware) (r : Router.route)
  (params : list (string * string)) :
  Router.dispatch decode ends Router.app m path [] = Router.ByRoute ran r params ->
  (In Router.RateLimiter ran <-> Router.unlimited (Router.action r) = false).
Proof.
  apply limiter_between.
  - exact limiter_not_before.
  - exact before_unlimited.
  - exact after_limited.
Qed.

Lemma limiter_guards_all_but_settings_routes_witness :
  (In Router.RateLimiter
      [Router.JsonBody; Router.Cors; Router.UrlEncoded; Router.Static;
       Router.Helmet; Router.JsonBody10mb; Router.UrlEncoded10mb;
       Router.RateLimiter]
   <-> Router.unlimited (Router.action Router.update_thread) = false)
  /\ (In Router.RateLimiter
        [Router.JsonBody; Router.Cors; Router.UrlEncoded; Router.Static;
         Router.Helmet; Router.JsonBody10mb; Router.UrlEncoded10mb]
      <-> Router.unlimited (Router.action Router.update_rate_limit) = false).
Proof.
  split.
  - apply (limiter_guards_all_but_settings_routes Router.decodeURIComponent
             Router.all_pass
             Router.PATCH ["update-thread"; "thread_1"] _ Router.update_thread
             [("thread_id", "thread_1")]).
    reflexivity.
  - apply (limiter_guards_all_but_settings_routes Router.decodeURIComponent
             Router.all_pass
             Router.POST ["update-rate-limit"] _ Router.update_rate_limit []).
    reflexivity.
Defined.

Lemma table_forwards_well (r : Router.route) :
  In r (Router.routes_of Router.app) -> Router.forwards_well r = true.
Proof.
  intros H. apply list_elem_of_In in H. revert r H. apply Forall_forall.
  apply (bool_decide_unpack _). vm_compute. reflexivity.
Qed.

Lemma verb_for_method_ok (a b : Router.method) :
  Router.method_ok a b = true -> Router.verb_for a = Router.verb_for b.
Proof. destruct a, b; simpl; intros H; try discriminate H; reflexivity. Qed.

(** X11. What a forwarding route passes on. The upstream call uses the
    verb that goes with the request's method (GET for GET and HEAD,
    DELETE for DELETE, and POST for both POST and PATCH). Every
    parameter in the upstream path is bound, so no upstream path is
    built with a missing parameter, and its value is what
    [decodeURIComponent] makes of a piece of the request path that is
    not empty. The value need not itself be a piece of the request path:
    an escaped slash in the request becomes a slash upstream. *)
Theorem forwarding_routes_bind_their_parameters
  (decode : string -> option string) (ends : Router.middleware -> bool)
  (m : Router.method) (path : list string)
  (ran : list Router.middleware) (r : Router.route)
  (params : list (string * string))
  (v : Router.upstream_verb) (target : list Router.seg) (body query : bool) :
  Router.dispatch decode ends Router.app m path [] = Router.ByRoute ran r params ->
  Router.action r = Router.Forward v target body query ->
  v = Router.verb_for m
  /\ forall name, In name (Router.params_of target) ->
       exists segment value,
         In segment path /\ segment <> EmptyString
         /\ decode segment = Some value
         /\ Router.param name params = Some value.
Proof.
  intros Hd Hact.
  destruct (dispatch_route _ _ _ _ _ _ _ _ _ Hd) as (Hin & Hacc & _).
  pose proof (table_forwards_well r Hin) as Hok.
  unfold Router.forwards_well in Hok. rewrite Hact in Hok.
  apply andb_true_iff in Hok as [Hverb Hnames].
  apply bool_decide_eq_true in Hverb.
  unfold Router.accepts in Hacc.
  destruct (Router.bind decode (Router.pattern r) path) as [|params'|bad] eqn:Hb;
    [discriminate Hacc| |discriminate Hacc].
  destruct (Router.method_ok (Router.verb r) m) eqn:Hm; [|discriminate Hacc].
  injection Hacc as ->.
  split; [rewrite Hverb; now apply verb_for_method_ok|].
  intros name Hname.
  destruct (bind_params _ _ _ _ Hb) as (Hkeys & Hvals).
  rewrite forallb_forall in Hnames.
  pose proof (Hnames name Hname) as Hn. apply bool_decide_eq_true in Hn.
  apply list_elem_of_In in Hn. rewrite <- Hkeys in Hn.
  destruct (param_bound name params Hn) as (value & Hp & Hv).
  destruct (Hvals value Hv) as (segment & Hs & Hne & Hdec).
  exists segment, value. repeat split; assumption.
Qed.

Lemma forwarding_routes_bind_their_parameters_witness :
  Router.UPost = Router.verb_for Router.PATCH
  /\ forall name,
       In name (Router.params_of [Router.Lit "threads"; Router.Param "thread_id"]) ->
       exists segment value,
         In segment ["update-thread"; "thread%5F1"]
         /\ segment <> EmptyString
         /\ Router.decodeURIComponent segment = Some value
         /\ Router.param name [("thread_id", "thread_1")] = Some value.
Proof.
  apply (forwarding_routes_bind_their_parameters Router.decodeURIComponent
           Router.all_pass
           Router.PATCH ["update-thread"; "thread%5F1"]
           [Router.JsonBody; Router.Cors; Router.UrlEncoded; Router.Static;
            Router.Helmet; Router.JsonBody10mb; Router.UrlEncoded10mb;
            Router.RateLimiter]
           Router.update_thread [("thread_id", "thread_1")]
           Router.UPost [Router.Lit "threads"; Router.Param "thread_id"]
           true false).
  - reflexivity.
  - reflexivity.
Defined.

(** An escaped slash in a parameter reaches upstream as a slash: the
    request [GET /retrieve-assistant/a%2Fb] asks upstream for
    [/assistants/a/b]. *)
Example escaped_slash_reaches_upstream :
  exists ran r params target,
    Router.dispatch Router.decodeURIComponent Router.all_pass Router.app
      Router.GET ["retrieve-assistant"; "a%2Fb"] []
    = Router.ByRoute ran r params
    /\ Router.action r = Router.Forward Router.UGet target false false
    /\ params = [("assistant_id", "a/b")]
    /\ Router.fill target params = "/assistants/a/b".
Proof. do 4 eexists. repeat split; reflexivity. Qed.

(** A parameter that cannot be decoded stops the request at the route
    whose pattern fits, whatever the method, and before the limiter has
    run when the route comes after it. *)
Example undecodable_parameter_is_an_error :
  Router.dispatch Router.decodeURIComponent Router.all_pass Router.app
    Router.POST ["retrieve-assistant"; "%E0%A4%A"] []
  = Router.BadParameter
      [Router.JsonBody; Router.Cors; Router.UrlEncoded; Router.Static;
       Router.Helmet; Router.JsonBody10mb; Router.UrlEncoded10mb;
       Router.RateLimiter]
      "%E0%A4%A".
Proof. reflexivity. Qed.

(** A piece that is empty is no parameter: [/retrieve-assistant//] has
    no route. *)
Example empty_piece_is_no_parameter :
  exists ran,
    Router.dispatch Router.decodeURIComponent Router.all_pass Router.app
      Router.GET ["retrieve-assistant"; EmptyString] []
    = Router.Unmatched ran.
Proof. eexists. reflexivity. Qed.

Example decodeURIComponent_examples :
  Router.decodeURIComponent "run%201" = Some "run 1"
  /\ Router.decodeURIComponent "a%2fb%2Fc" = Some "a/b/c"
  /\ Router.decodeURIComponent "plain" = Some "plain"
  /\ Router.decodeURIComponent "%" = None
  /\ Router.decodeURIComponent "%4" = None
  /\ Router.decodeURIComponent "%zz" = None
  /\ Router.decodeURIComponent "%80" = None
  /\ Router.decodeURIComponent "%C0%80" = None
  /\ Router.decodeURIComponent "%ED%A0%80" = None
  /\ Router.decodeURIComponent "%C3x" = None
  /\ Router.decodeURIComponent "%C3%A9"
     = Some (String (ascii_of_nat 195) (String (ascii_of_nat 169) EmptyString))
  /\ Router.decodeURIComponent "%F0%9F%98%80"
     = Some (String (ascii_of_nat 240) (String (ascii_of_nat 159)
              (String (ascii_of_nat 152) (String (ascii_of_nat 128) EmptyString)))).
Proof. repeat split; reflexivity. Qed.

Lemma append_empty_r (s : string) : s +:+ EmptyString = s.
Proof.
  induction s as [|c s IH]; [reflexivity|].
  change (String c (s +:+ EmptyString) = String c s). now rewrite IH.
Qed.

Example retrieve_run_asks_for_the_polled_url (t r : string) :
  Router.fill [Router.Lit "threads"; Router.Param "thread_id";
               Router.Lit "runs"; Router.Param "run_id"]
              [("thread_id", t); ("run_id", r)]
  = run_url t r.
Proof.
  unfold run_url. cbn [Router.fill Router.param String.eqb Ascii.eqb Bool.eqb
                         template].
  rewrite append_empty_r. reflexivity.
Qed.

(** * The upload route as a whole *)


Example upload_type_check_is_exact :
  UploadRoute.fileFilter "application/pdf" = None
  /\ UploadRoute.fileFilter "Application/PDF" <> None
  /\ UploadRoute.fileFilter "text/plain; charset=utf-8" <> None.
Proof. repeat split; discriminate. Qed.

(** * More on tool calls *)

Section ToolFacts.

Variable global : gmap string (jsval -> ToolCalls.call_result).
Variable JSON_parse : jsval -> js_error + jsval.

Local Abbreviation callback := (ToolCalls.callback global JSON_parse).
Local Abbreviation breaks := (ExecuteTools.breaks global JSON_parse).

Lemma finish_id id v o :
  ToolCalls.finish id v = ToolCalls.Fulfilled o -> ToolCalls.tool_call_id o = id.
Proof.
  unfold ToolCalls.finish.
  destruct (JSON_stringify v); intros H; try discriminate H;
    injection H as <-; reflexivity.
Qed.

Lemma callback_id call o :
  callback call = ToolCalls.Fulfilled o ->
  ToolCalls.tool_call_id o = ToolCalls.id call.
Proof.
  unfold ToolCalls.callback.
  destruct (ToolCalls.try_block _ _ _ _) as [v|e|]; [apply finish_id| |discriminate].
  destruct (ToolCalls.catch_block _ _) as [e'|v]; [discriminate|apply finish_id].
Qed.

Lemma finish_error_object id msg :
  ToolCalls.finish id (ToolCalls.error_object msg)
  = ToolCalls.Fulfilled {| ToolCalls.tool_call_id := id;
                           ToolCalls.output := Some (ToolCalls.error_text msg) |}.
Proof. apply finish_text, stringify_error_object. Qed.

Lemma callback_rejects_iff call :
  (exists e, callback call = ToolCalls.RejectedWith e) <-> breaks call.
Proof.
  unfold ToolCalls.callback, ToolCalls.try_block, ToolCalls.catch_block,
    ExecuteTools.breaks.
  destruct (ToolCalls.function call) as [f|] eqn:Hfun;
    [|split; [intros _; now left|intros _; eexists; reflexivity]].
  destruct (global !! ToolCalls.name f) as [fn|] eqn:Hg.
  - destruct (JSON_parse (ToolCalls.arguments call)) as [e|parsed] eqn:Hp.
    + cbn [ToolCalls.message_read template]. rewrite finish_error_object.
      split; [intros (e' & H); discriminate H|].
      intros [H|[(f' & fn' & parsed' & v & e' & Hf' & Hg' & Hp' & _)
                |(f' & fn' & parsed' & t & e' & Hf' & Hg' & Hp' & _)]];
        [discriminate H| |]; injection Hf' as <-; congruence.
    + destruct (fn parsed) as [v|error|] eqn:Hcall.
      * unfold ToolCalls.finish.
        destruct (JSON_stringify v) as [s| |e] eqn:Hs.
        -- split; [intros (e' & H); discriminate H|].
           intros [H|[(f' & fn' & parsed' & v' & e' & Hf' & Hg' & Hp' & Hc' & Hs')
                     |(f' & fn' & parsed' & t & e' & Hf' & Hg' & Hp' & Hc' & _)]];
             [discriminate H| |]; injection Hf' as <-;
             assert (fn' = fn) as -> by congruence;
             assert (parsed' = parsed) as -> by congruence; [|congruence].
           assert (v' = v) as -> by congruence. congruence.
        -- split; [intros (e' & H); discriminate H|].
           intros [H|[(f' & fn' & parsed' & v' & e' & Hf' & Hg' & Hp' & Hc' & Hs')
                     |(f' & fn' & parsed' & t & e' & Hf' & Hg' & Hp' & Hc' & _)]];
             [discriminate H| |]; injection Hf' as <-;
             assert (fn' = fn) as -> by congruence;
             assert (parsed' = parsed) as -> by congruence; [|congruence].
           assert (v' = v) as -> by congruence. congruence.
        -- split; [|intros _; now exists e].
           intros _. right. left. exists f, fn, parsed, v, e.
           repeat split; try assumption; reflexivity.
      * destruct (ToolCalls.message_read error) as [e|message] eqn:Hm.
        -- split; [|intros _; now exists e].
           intros _. right. right. exists f, fn, parsed, error, e.
           repeat split; try assumption; reflexivity.
        -- rewrite finish_error_object.
           split; [intros (e' & H); discriminate H|].
           intros [H|[(f' & fn' & parsed' & v' & e' & Hf' & Hg' & Hp' & Hc' & _)
                     |(f' & fn' & parsed' & t & e' & Hf' & Hg' & Hp' & Hc' & Hm')]];
             [discriminate H| |]; injection Hf' as <-;
             assert (fn' = fn) as -> by congruence;
             assert (parsed' = parsed) as -> by congruence; [congruence|].
           assert (t = error) as -> by congruence. congruence.
      * split; [intros (e' & H); discriminate H|].
        intros [H|[(f' & fn' & parsed' & v' & e' & Hf' & Hg' & Hp' & Hc' & _)
                  |(f' & fn' & parsed' & t & e' & Hf' & Hg' & Hp' & Hc' & _)]];
          [discriminate H| |]; injection Hf' as <-;
          assert (fn' = fn) as -> by congruence;
          assert (parsed' = parsed) as -> by congruence; congruence.
  - rewrite finish_error_object.
    split; [intros (e' & H); discriminate H|].
    intros [H|[(f' & fn' & _ & _ & _ & Hf' & Hg' & _)
              |(f' & fn' & _ & _ & _ & Hf' & Hg' & _)]];
      [discriminate H| |]; injection Hf' as <-; congruence.
Qed.

Lemma reasons_of_nonempty {A} (ps : list (ToolCalls.promise A)) :
  ToolCalls.reasons_of ps <> []
  <-> Exists (fun p => exists e, p = ToolCalls.RejectedWith e) ps.
Proof.
  induction ps as [|p ps IH].
  - split; [intros H; now contradiction H|]. intros H. inversion H.
  - destruct p as [a|e|]; simpl.
    + rewrite IH. split; [intros H; now right|].
      intros H. inversion H as [? ? (e & He)|]; [discriminate He|assumption].
    + split; [|discriminate]. intros _. left. now exists e.
    + rewrite IH. split; [intros H; now right|].
      intros H. inversion H as [? ? (e & He)|]; [discriminate He|assumption].
Qed.

Lemma Promise_all_rejected {A} (ps : list (ToolCalls.promise A)) :
  (exists reasons, ToolCalls.Promise_all ps = ToolCalls.AllRejected reasons)
  <-> ToolCalls.reasons_of ps <> [].
Proof.
  unfold ToolCalls.Promise_all.
  destruct (ToolCalls.reasons_of ps) as [|e rs] eqn:Hr.
  - split; [|intros H; now contradiction H].
    intros (reasons & H). destruct (ToolCalls.values_of ps); discriminate H.
  - split; [discriminate|]. intros _. eexists. reflexivity.
Qed.

Lemma Promise_all_values {A} (ps : list (ToolCalls.promise A)) (vs : list A) :
  ToolCalls.Promise_all ps = ToolCalls.AllFulfilled vs ->
  Forall2 (fun p v => p = ToolCalls.Fulfilled v) ps vs.
Proof.
  unfold ToolCalls.Promise_all.
  destruct (ToolCalls.reasons_of ps); [|discriminate].
  destruct (ToolCalls.values_of ps) as [vs'|] eqn:Hv; [|discriminate].
  intros H. injection H as <-. clear -Hv. revert vs' Hv.
  induction ps as [|p ps IH]; intros vs Hv.
  - injection Hv as <-. constructor.
  - destruct p as [a|e|]; try discriminate Hv. simpl in Hv.
    destruct (ToolCalls.values_of ps) as [vs0|]; [|discriminate Hv].
    injection Hv as <-. constructor; [reflexivity|]. now apply IH.
Qed.

End ToolFacts.

Lemma rejection_characterised
  (global : gmap string (jsval -> ToolCalls.call_result))
  (JSON_parse : jsval -> js_error + jsval)
  (tool_calls : list ToolCalls.ToolCall) :
  (exists reasons,
      ToolCalls.handleToolCalls global JSON_parse tool_calls
      = ToolCalls.AllRejected reasons)
  <-> Exists (ExecuteTools.breaks global JSON_parse) tool_calls.
Proof.
  unfold ToolCalls.handleToolCalls.
  rewrite Promise_all_rejected, reasons_of_nonempty.
  induction tool_calls as [|call calls IH]; simpl.
  - split; intros H; inversion H.
  - split; intros H; inversion H as [? ? Hhead|? ? Htail]; subst.
    + left. now apply callback_rejects_iff.
    + right. now apply IH.
    + left. now apply callback_rejects_iff.
    + right. now apply IH.
Qed.

(** X13. [handleToolCalls] rejects exactly when one of the calls has no
    function descriptor, or names a function whose return value
    [JSON.stringify] throws on, or names a function that throws [null] or
    [undefined]; a function that throws anything else, arguments that do
    not parse and an unknown name never make it reject. *)
Theorem handleToolCalls_rejects_iff
  (global : gmap string (jsval -> ToolCalls.call_result))
  (JSON_parse : jsval -> js_error + jsval)
  (tool_calls : list ToolCalls.ToolCall) :
  (exists reasons,
      ToolCalls.handleToolCalls global JSON_parse tool_calls
      = ToolCalls.AllRejected reasons)
  <-> Exists (ExecuteTools.breaks global JSON_parse) tool_calls.
Proof. apply rejection_characterised. Qed.

(** X14. A tool call shaped as upstream sends it, with the arguments
    under [function] and none on the call itself, never gets its function
    run: given that [JSON.parse(undefined)] throws, the output for a name
    that [global] has is the error object carrying the parse error,
    whatever the function would do. *)
Theorem upstream_shaped_calls_never_run
  (global : gmap string (jsval -> ToolCalls.call_result))
  (JSON_parse : jsval -> js_error + jsval)
  (call_id name : string) (fn : jsval -> ToolCalls.call_result)
  (e : js_error) :
  global !! name = Some fn ->
  JSON_parse VUndefined = inl e ->
  ToolCalls.handleToolCalls global JSON_parse
    [ExecuteTools.upstream_shaped call_id name]
  = ToolCalls.AllFulfilled
      [{| ToolCalls.tool_call_id := VStr call_id;
          ToolCalls.output :=
            Some (ToolCalls.error_text
                    ("Error executing " +:+ name +:+ ": " +:+ message_of e)) |}].
Proof.
  intros Hg Hp.
  unfold ToolCalls.handleToolCalls, ToolCalls.callback, ToolCalls.try_block,
    ToolCalls.catch_block.
  cbn [map ExecuteTools.upstream_shaped ToolCalls.function ToolCalls.arguments
       ToolCalls.name ToolCalls.id].
  rewrite Hg, Hp. cbn [ToolCalls.message_read template].
  rewrite finish_error_object. reflexivity.
Qed.

Lemma upstream_shaped_calls_never_run_witness :
  ToolCalls.handleToolCalls ToolCalls.node_globals ToolCalls.parse_atom
    [ExecuteTools.upstream_shaped "call_9" "structuredClone"]
  = ToolCalls.AllFulfilled
      [{| ToolCalls.tool_call_id := VStr "call_9";
          ToolCalls.output :=
            Some (ToolCalls.error_text
                    ("Error executing " +:+ "structuredClone" +:+ ": "
                     +:+ message_of (SyntaxError "Unexpected token in JSON"))) |}].
Proof.
  apply (upstream_shaped_calls_never_run ToolCalls.node_globals
           ToolCalls.parse_atom "call_9" "structuredClone"
           (fun v => ToolCalls.Returns v)
           (SyntaxError "Unexpected token in JSON")).
  - vm_compute. reflexivity.
  - reflexivity.
Defined.

(** X15. [/execute-tools] submits all outputs or none. When it calls
    upstream, it does so once, at the run's [submit_tool_outputs] path,
    with exactly one output per requested call, in the order of the
    calls and each under the id of its call; when the body has no
    [tool_calls], or any call makes [handleToolCalls] reject, upstream is
    not called at all. *)
Theorem execute_tools_submits_all_or_nothing
  (global : gmap string (jsval -> ToolCalls.call_result))
  (JSON_parse : jsval -> js_error + jsval)
  (thread_id run_id : string) (tool_calls : option (list ToolCalls.ToolCall))
  (c : Client) (answer : settled jsval) :
  match ExecuteTools.execute_tools global JSON_parse thread_id run_id
          tool_calls c answer with
  | ExecuteTools.Posted c' url outputs answer' =>
      exists calls,
        tool_calls = Some calls
        /\ url = "/threads/" +:+ thread_id +:+ "/runs/" +:+ run_id
                 +:+ "/submit_tool_outputs"
        /\ map ToolCalls.tool_call_id outputs = map ToolCalls.id calls
        /\ ~ Exists (ExecuteTools.breaks global JSON_parse) calls
  | ExecuteTools.Failed reasons =>
      reasons <> []
      /\ (tool_calls = None
          \/ exists calls, tool_calls = Some calls
               /\ Exists (ExecuteTools.breaks global JSON_parse) calls)
  | ExecuteTools.Stuck => True
  end.
Proof.
  unfold ExecuteTools.execute_tools.
  destruct tool_calls as [calls|]; [|split; [discriminate|now left]].
  destruct (ToolCalls.handleToolCalls global JSON_parse calls)
    as [outputs|reasons|] eqn:Hh; [| |exact I].
  - exists calls. split; [reflexivity|]. split; [reflexivity|]. split.
    + unfold ToolCalls.handleToolCalls in Hh.
      apply Promise_all_values in Hh.
      remember (map (ToolCalls.callback global JSON_parse) calls) as ps eqn:Hps.
      revert calls Hps.
      induction Hh as [|p o ps outs Hp _ IH]; intros calls Hps.
      * destruct calls; [reflexivity|discriminate Hps].
      * destruct calls as [|call calls]; [discriminate Hps|].
        injection Hps as -> ->. simpl. f_equal; [|now apply IH].
        now apply (callback_id global JSON_parse).
    + intros Hbreak. apply rejection_characterised in Hbreak as (rs & Hrs).
      congruence.
  - split.
    + unfold ToolCalls.handleToolCalls, ToolCalls.Promise_all in Hh.
      destruct (ToolCalls.reasons_of _) as [|e rs] eqn:Hr.
      * destruct (ToolCalls.values_of _); discriminate Hh.
      * injection Hh as <-. discriminate.
    + right. exists calls. split; [reflexivity|].
      apply rejection_characterised. now exists reasons.
Qed.

Example execute_tools_without_tool_calls (c : Client) (answer : settled jsval) :
  ExecuteTools.execute_tools ToolCalls.node_globals ToolCalls.parse_atom
    "t1" "r1" None c answer
  = ExecuteTools.Failed [ExecuteTools.undefined_map].
Proof. reflexivity. Qed.

(** * Frames on the wire *)

Lemma no_control_app (a b : string) :
  no_control (a +:+ b) = no_control a && no_control b.
Proof.
  induction a as [|c a IH]; [reflexivity|].
  change (no_control (String c (a +:+ b))
          = no_control (String c a) && no_control b).
  simpl. rewrite IH. now rewrite andb_assoc.
Qed.

Lemma no_control_escape_char (c : ascii) :
  no_control (json_escape_char c) = true.
Proof.
  destruct c as [[] [] [] [] [] [] [] []]; vm_compute; reflexivity.
Qed.

Lemma no_control_escape (s : string) : no_control (json_escape s) = true.
Proof.
  induction s as [|c s IH]; [reflexivity|].
  change (no_control (json_escape_char c +:+ json_escape s) = true).
  now rewrite no_control_app, no_control_escape_char, IH.
Qed.

Lemma no_control_json_string (s : string) : no_control (json_string s) = true.
Proof.
  unfold json_string. now rewrite !no_control_app, no_control_escape.
Qed.

(** X16. A frame is one line: for every event, whatever characters the
    status tag or the message text contains, the text handed to
    [res.write] is "data: ", a payload without any control character (no
    line feed or carriage return in particular), and two line feeds. A
    message with line breaks in it cannot split or end a frame early. *)
Theorem frame_payload_is_one_line (t : event_type) (text : string) :
  exists payload,
    render (Data {| type := t; content := text |})
    = "data: " +:+ payload +:+ nl +:+ nl
    /\ no_control payload = true.
Proof.
  exists (json_of_event {| type := t; content := text |}).
  split; [reflexivity|].
  unfold json_of_event. cbn [type content].
  rewrite !no_control_app, !no_control_json_string. reflexivity.
Qed.

Example frame_with_line_break :
  render (message_event ("a" +:+ nl +:+ "b"))
  = "data: {" +:+ dquote +:+ "type" +:+ dquote +:+ ":" +:+ dquote +:+ "message"
    +:+ dquote +:+ "," +:+ dquote +:+ "content" +:+ dquote +:+ ":" +:+ dquote
    +:+ "a\nb" +:+ dquote +:+ "}" +:+ nl +:+ nl.
Proof. reflexivity. Qed.

(** * Reaching a route *)

Lemma dispatch_complete (decode : string -> option string)
  (ends : Router.middleware -> bool)
  (l : list Router.layer) m path r params :
  (forall r1 r2,
      In r1 (Router.routes_of l) -> In r2 (Router.routes_of l) ->
      Router.accepts decode r1 m path <> Router.NoMatch ->
      Router.accepts decode r2 m path <> Router.NoMatch -> r1 = r2) ->
  In r (Router.routes_of l) ->
  Router.accepts decode r m path = Router.Bound params ->
  forall ran,
    (exists ran',
        Router.dispatch decode ends l m path ran = Router.ByRoute ran' r params)
    \/ (exists ran' mw,
           Router.dispatch decode ends l m path ran = Router.EndedBy ran' mw
           /\ ends mw = true).
Proof.
  intros Huniq.
  induction l as [|[mw|r0] l IH]; intros Hin Hacc ran; [destruct Hin| |].
  - simpl. destruct (ends mw) eqn:Hmw.
    + right. exists ran, mw. now split.
    + apply IH; [|exact Hin|exact Hacc].
      intros r1 r2 H1 H2. now apply Huniq.
  - simpl. destruct (Router.accepts decode r0 m path) as [|params0|bad] eqn:Ha0.
    + destruct Hin as [->|Hin]; [congruence|].
      apply IH; [|exact Hin|exact Hacc].
      intros r1 r2 H1 H2. apply Huniq; now right.
    + assert (r0 = r) as ->.
      { apply (Huniq r0 r); [now left|exact Hin|congruence|congruence]. }
      rewrite Hacc in Ha0. injection Ha0 as <-. left. now exists ran.
    + assert (r0 = r) as ->.
      { apply (Huniq r0 r); [now left|exact Hin|congruence|congruence]. }
      congruence.
Qed.

(** X18. No route of the table is dead: a request that a route accepts
    either is handled by that route, with the parameters it bound, or
    has been ended by a middleware before it got there (a file of the
    [public] directory, a body that the parser refuses, the rate
    limiter). No other route takes the request, it does not fall
    through, and no parameter of another route makes it fail. *)
Theorem accepted_request_reaches_its_route
  (decode : string -> option string) (ends : Router.middleware -> bool)
  (m : Router.method) (path : list string)
  (r : Router.route) (params : list (string * string)) :
  In r (Router.routes_of Router.app) ->
  Router.accepts decode r m path = Router.Bound params ->
  (exists ran,
      Router.dispatch decode ends Router.app m path [] = Router.ByRoute ran r params)
  \/ (exists ran mw,
         Router.dispatch decode ends Router.app m path [] = Router.EndedBy ran mw
         /\ ends mw = true).
Proof.
  intros Hin Hacc.
  apply dispatch_complete; try assumption.
  intros r1 r2. apply routes_unique.
Qed.

Lemma accepted_request_reaches_its_route_witness :
  (exists ran,
      Router.dispatch Router.decodeURIComponent Router.all_pass Router.app
        Router.HEAD ["RETRIEVE-RUN"; "thread_1"; "run%2D1"] []
      = Router.ByRoute ran Router.retrieve_run
          [("thread_id", "thread_1"); ("run_id", "run-1")])
  \/ (exists ran mw,
         Router.dispatch Router.decodeURIComponent Router.all_pass Router.app
           Router.HEAD ["RETRIEVE-RUN"; "thread_1"; "run%2D1"] []
         = Router.EndedBy ran mw
         /\ Router.all_pass mw = true).
Proof.
  apply (accepted_request_reaches_its_route Router.decodeURIComponent
           Router.all_pass Router.HEAD
           ["RETRIEVE-RUN"; "thread_1"; "run%2D1"] Router.retrieve_run
           [("thread_id", "thread_1"); ("run_id", "run-1")]).
  - apply list_elem_of_In, (bool_decide_unpack _). vm_compute. reflexivity.
  - reflexivity.
Defined.

(** A client over its limit does not reach [/retrieve-run], and does
    reach [/api-defaults]. *)
Example limiter_ends_a_request :
  Router.dispatch Router.decodeURIComponent
    (fun mw => bool_decide (mw = Router.RateLimiter)) Router.app
    Router.GET ["retrieve-run"; "thread_1"; "run_1"] []
  = Router.EndedBy
      [Router.JsonBody; Router.Cors; Router.UrlEncoded; Router.Static;
       Router.Helmet; Router.JsonBody10mb; Router.UrlEncoded10mb]
      Router.RateLimiter
  /\ exists ran r,
       Router.dispatch Router.decodeURIComponent
         (fun mw => bool_decide (mw = Router.RateLimiter)) Router.app
         Router.GET ["api-defaults"] []
       = Router.ByRoute ran r []
       /\ Router.action r = Router.ApiDefaults.
Proof. split; [reflexivity|]. do 2 eexists. split; reflexivity. Qed.
